(** * VisoLearn local interface: the checklist engine

    A shallow embedding of the progress-tracking core of the repository:
    [FallbackMode] (fallback_mode.py), the checklist decoder, progress line
    and attempt counter of app.py, and [VisoLearnClient.process_data_url]
    (visolearn_client.py).

    Modelling conventions.
    - A Python [str] is a [list ascii]: the bytes of its UTF-8 encoding.  On
      ASCII text (every literal of the engine other than the two check marks)
      [len], [lower], [split], [in] and [startswith] below coincide with
      Python's.  Outside the ASCII range they need not: [str.lower] follows
      the case tables of Unicode, [len] counts code points and [str.split]
      also cuts at the whitespace of Unicode.  A statement whose truth
      depends on the case of letters, on the length of a word or on where
      words end is therefore made about ASCII text ([ascii_text]).
    - A Python [int] is a [Z]; counters that only count are [nat].
    - A checklist is a Python list of dict objects.  Lists hold references:
      the dicts live in a [store] (a finite map from locations to items) and
      a checklist is a [list loc].  [list.copy()] copies the references, not
      the dicts.  A reference held by a Python list always points at a live
      dict, so the answers the model gives at a location missing from the
      store are never observed.
    - The module [random] is a stream of raw draws [nat -> nat] read at an
      explicit position, or a single raw draw where only one is made. *)

From Stdlib Require Import ZArith Ascii String List Lia DecimalString Floats Uint63.
From stdpp Require Import base option list gmap strings.

Local Open Scope nat_scope.

(** ** Python strings *)

Module PyStr.

Definition str : Type := list ascii.

(** A string literal of the source. *)
Definition lit (s : string) : str := list_ascii_of_string s.

(** [str.isspace] on one ASCII character: TAB, LF, VT, FF, CR, the four
    separators 0x1c-0x1f and the space.  A byte outside the ASCII range is
    no whitespace here; Unicode has whitespace there (U+00A0 and others). *)
Definition isspace (c : ascii) : bool :=
  let n := nat_of_ascii c in
  ((9 <=? n) && (n <=? 13)) || ((28 <=? n) && (n <=? 32)).

(** [c.lower()] on one ASCII character.  A byte outside the ASCII range
    is left as it is; [str.lower] changes letters there as well. *)
Definition lower_char (c : ascii) : ascii :=
  let n := nat_of_ascii c in
  if (65 <=? n) && (n <=? 90) then ascii_of_nat (n + 32) else c.

(** [s.lower()] *)
Definition lower (s : str) : str := map lower_char s.

(** [s.split()]: maximal runs of non-whitespace characters, in order.
    [cur] is the run being read, most recent character first. *)
Fixpoint split_go (cur : str) (s : str) : list str :=
  match s with
  | [] => match cur with [] => [] | _ :: _ => [rev cur] end
  | c :: s' =>
      if isspace c
      then match cur with
           | [] => split_go [] s'
           | _ :: _ => rev cur :: split_go [] s'
           end
      else split_go (c :: cur) s'
  end.

Definition split (s : str) : list str := split_go [] s.

(** [s.startswith(p)] *)
Fixpoint startswith (p s : str) : bool :=
  match p, s with
  | [], _ => true
  | _ :: _, [] => false
  | a :: p', b :: s' => if Ascii.eqb a b then startswith p' s' else false
  end.

(** [w in s] for strings: [w] occurs in [s] as a contiguous substring. *)
Fixpoint contains (w s : str) : bool :=
  startswith w s ||
  match s with
  | [] => false
  | _ :: s' => contains w s'
  end.

(** [s.endswith(p)] *)
Definition endswith (p s : str) : bool := startswith (rev p) (rev s).

(** [str(n)] for a non-negative integer, as an f-string renders it. *)
Definition of_nat (n : nat) : str := lit (NilZero.string_of_uint (Nat.to_uint n)).

(** [sep.split]-style cutting on one separator character, [s.split(',')]:
    the fields between the separators, empty fields included. *)
Fixpoint split_on_go (sep : ascii) (cur : str) (s : str) : list str :=
  match s with
  | [] => [rev cur]
  | c :: s' =>
      if Ascii.eqb c sep then rev cur :: split_on_go sep [] s'
      else split_on_go sep (c :: cur) s'
  end.

Definition split_on (sep : ascii) (s : str) : list str := split_on_go sep [] s.

End PyStr.

Import PyStr.

(** ** The checklist data model *)

(** One checklist entry, the dict [{'detail': ..., 'identified': ..., 'id': ...}]. *)
Record Item : Type := mkItem {
  detail : str;
  identified : bool;
  id : nat
}.

#[global] Instance Item_inhabited : Inhabited Item := populate (mkItem [] false 0).

(** [item['identified'] = True] *)
Definition set_identified (it : Item) : Item :=
  {| detail := detail it; identified := true; id := id it |}.

(** Locations of dict objects, and the store holding them. *)
Abbreviation loc := nat (only parsing).
Abbreviation store := (gmap nat Item) (only parsing).

(** [item['identified']] read through a reference. *)
Definition ident (h : store) (r : loc) : bool :=
  match h !! r with
  | Some it => identified it
  | None => false
  end.

(** The dicts a list of references denotes, in list order. *)
Definition view (h : store) (refs : list loc) : list Item :=
  map (fun r => h !!! r) refs.

(** The part of [st.session_state.active_session] the engine reads: a key
    that is absent from the dict is [None]. *)
Record Session : Type := mkSession {
  attempt_count : option Z;
  attempt_limit : option Z
}.

(** ** fallback_mode.py *)

Module FallbackMode.

(** *** process_chat_message *)

(** The test of the inner loop: [len(word) > 3 and word in message_lower].
    [length word] is [len(word)] on ASCII text. *)
Definition word_hit (message_lower word : str) : bool :=
  (3 <? length word) && contains word message_lower.

(** The inner [for word in detail_words] loop with its [break]: the words
    are tried in order and the scan stops at the first hit. *)
Fixpoint scan_words (message_lower : str) (detail_words : list str) : bool :=
  match detail_words with
  | [] => false
  | word :: rest =>
      if word_hit message_lower word then true
      else scan_words message_lower rest
  end.

(** Whether an unidentified item with this detail text gets marked. *)
Definition detail_hit (message detail_text : str) : bool :=
  let detail_words := split (lower detail_text) in
  let message_lower := lower message in
  scan_words message_lower detail_words.

(** One iteration of [for i, item in enumerate(updated_checklist)]:
    [updated_checklist[i]] and [item] are the same dict, at [r]. *)
Definition visit (message : str) (h : store) (r : loc) : store :=
  match h !! r with
  | None => h
  | Some item =>
      if identified item then h
      else if detail_hit message (detail item)
           then <[r := set_identified item]> h
           else h
  end.

Definition mark_items (message : str) (refs : list loc) (h : store) : store :=
  fold_left (visit message) refs h.

(** [checklist.copy()]: a new list object holding the same references. *)
Definition list_copy (checklist : list loc) : list loc := checklist.

(** [sum(1 for i, item in enumerate(updated_checklist)
         if item['identified'] and not checklist[i]['identified'])],
    evaluated in the store as it is after the marking loop. *)
Fixpoint newly_identified_from (h : store) (i : nat)
    (updated_checklist checklist : list loc) : nat :=
  match updated_checklist with
  | [] => 0
  | item :: rest =>
      (if ident h item && negb (from_option (ident h) false (checklist !! i))
       then 1 else 0)
      + newly_identified_from h (S i) rest checklist
  end.

Definition newly_identified (h : store) (updated_checklist checklist : list loc) : nat :=
  newly_identified_from h 0 updated_checklist checklist.

(** [[item['detail'] for item in updated_checklist if not item['identified']]] *)
Definition unidentified_details (h : store) (updated_checklist : list loc) : list str :=
  map (fun r => detail (h !!! r)) (List.filter (fun r => negb (ident h r)) updated_checklist).

(** [random.choice(seq)] on a non-empty sequence, from one raw draw. *)
Definition random_choice (rnd : nat) (seq : list str) : str :=
  nth (rnd mod length seq) seq [].

Definition affirmation (n : nat) : str :=
  lit "Great job! You identified " ++ of_nat n ++ lit " new detail"
    ++ (if 1 <? n then lit "s" else []) ++ lit ".".

Definition enthusiasm : str := lit " Your observation skills are excellent!".

Definition hint_question (hint_item : str) : str :=
  lit "Good try! Can you tell me more about the " ++ lower hint_item ++ lit "?".

Definition completion : str :=
  lit "Wonderful! You've identified all the details in this image.".

Definition last_attempt_warning : str :=
  String.list_ascii_of_string
    (String "010" (String "010"
       "This is your last attempt. After this, we'll move to a new image.")).

(** [all(item['identified'] for item in updated_checklist)] *)
Definition all_identified (h : store) (refs : list loc) : bool :=
  forallb (ident h) refs.

(** The guard of the closing [if]: the session and its limit are truthy,
    and [attempt_count + 1 >= attempt_limit and not all(...)]. *)
Definition warns (active_session : option Session) (h : store)
    (updated_checklist : list loc) : bool :=
  match active_session with
  | None => false
  | Some s =>
      match attempt_limit s with
      | None => false
      | Some limit =>
          if (limit =? 0)%Z then false
          else
            let count := default 0%Z (attempt_count s) in
            (limit <=? count + 1)%Z && negb (all_identified h updated_checklist)
      end
  end.

(** The response before the closing [if]. *)
Definition base_response (rnd : nat) (h : store)
    (updated_checklist checklist : list loc) : str :=
  let n := newly_identified h updated_checklist checklist in
  if 0 <? n then
    affirmation n ++ (if 1 <? n then enthusiasm else [])
  else
    let unidentified := unidentified_details h updated_checklist in
    match unidentified with
    | [] => completion
    | _ :: _ => hint_question (random_choice rnd unidentified)
    end.

(** [process_chat_message(message, checklist, active_session)]: the
    response, the returned list and the store after the call. *)
Definition process_chat_message (rnd : nat) (message : str) (checklist : list loc)
    (active_session : option Session) (h : store) : str * list loc * store :=
  let updated_checklist := list_copy checklist in
  let h' := mark_items message updated_checklist h in
  let response := base_response rnd h' updated_checklist checklist in
  let response :=
    if warns active_session h' updated_checklist
    then response ++ last_attempt_warning else response in
  (response, updated_checklist, h').

(** *** generate_placeholder_checklist *)

Definition generic_details : list str :=
  [ lit "Background color"; lit "Main subject"; lit "Foreground elements";
    lit "Lighting effects"; lit "Shadows and highlights";
    lit "Texture patterns"; lit "Color scheme" ].

Definition animal_details : list str :=
  [ lit "Animal type"; lit "Animal posture"; lit "Animal coloring";
    lit "Habitat elements"; lit "Animal features" ].

Definition people_details : list str :=
  [ lit "Person's expression"; lit "Clothing items"; lit "Posture or pose";
    lit "Hair style"; lit "Action being performed" ].

Definition nature_details : list str :=
  [ lit "Type of landscape"; lit "Plant life"; lit "Weather conditions";
    lit "Time of day"; lit "Natural features" ].

Definition object_details : list str :=
  [ lit "Object shape"; lit "Object purpose"; lit "Object material";
    lit "Object size"; lit "Object color" ].

(** [word in topic_words] on a list of strings. *)
Definition word_in (word : str) (topic_words : list str) : bool :=
  existsb (fun w => bool_decide (w = word)) topic_words.

(** [any(word in topic_words for word in keywords)] *)
Definition any_word_in (keywords : list string) (topic_words : list str) : bool :=
  existsb (fun word => word_in (lit word) topic_words) keywords.

(** The [if]/[elif] chain choosing the topic bucket. *)
Definition topic_details (topic : str) : list str :=
  if negb (bool_decide (topic = [])) && negb (bool_decide (topic = lit "Unknown"))
  then
    let topic_words := split (lower topic) in
    if any_word_in ["animal"; "animals"; "pet"; "pets"; "wildlife"]%string topic_words
    then animal_details
    else if any_word_in ["person"; "people"; "child"; "children"; "family"]%string topic_words
    then people_details
    else if any_word_in ["nature"; "landscape"; "tree"; "forest"; "mountain"; "ocean"]%string
              topic_words
    then nature_details
    else if any_word_in ["object"; "toy"; "item"; "tool"]%string topic_words
    then object_details
    else []
  else [].

(** [random.randint(a, b)] from the raw draw at position [pos]. *)
Definition randint (rng : nat -> nat) (pos : nat) (a b : nat) : nat :=
  a + rng pos mod (b - a + 1).

(** [random.sample(population, k)] for a population of at most 21
    elements, the branch of CPython's [sample] that copies the population
    into [pool]: for each [i], [j = randbelow(n - i)], [result[i] = pool[j]],
    [pool[j] = pool[n - i - 1]].  The list [pool] below is the live prefix
    [pool[:n - i]]. *)
Fixpoint sample_go (rng : nat -> nat) (pos : nat) (pool : list str) (k : nat) : list str :=
  match k with
  | 0 => []
  | S k' =>
      let m := length pool in
      let j := rng pos mod m in
      let picked := nth j pool [] in
      let pool' := take (m - 1) (<[j := nth (m - 1) pool []]> pool) in
      picked :: sample_go rng (S pos) pool' k'
  end.

Definition random_sample (rng : nat -> nat) (pos : nat) (population : list str) (k : nat)
    : list str :=
  sample_go rng pos population k.

(** [generate_placeholder_checklist(topic)]: the dicts it creates, in order.
    The first raw draw feeds [randint], the following ones [sample]. *)
Definition generate_placeholder_checklist (rng : nat -> nat) (topic : str) : list Item :=
  let all_details := topic_details topic ++ generic_details in
  let num_details := Nat.min (length all_details) (randint rng 0 5 8) in
  let selected_details := random_sample rng 1 all_details num_details in
  imap (fun i d => {| detail := d; identified := false; id := i |}) selected_details.

(** *** create_html_checklist *)

(** The double quote character. *)
Definition dq : ascii := "034"%char.

Definition html_header : str :=
  lit "<div id=" ++ [dq] ++ lit "checklist-container" ++ [dq] ++ lit " style=" ++ [dq]
    ++ lit "background-color: #000000; color: #ffffff; padding: 15px; border-radius: 8px;"
    ++ [dq] ++ lit ">"
    ++ lit "<style>.checklist-item {display: flex; align-items: center; margin-bottom: 10px; padding: 8px; border-radius: 5px; transition: background-color 0.3s;} "
    ++ lit ".identified {background-color: #1e4620; text-decoration: line-through; color: #7fff7f;} "
    ++ lit ".not-identified {background-color: #222222; color: #ffffff;} "
    ++ lit ".checkmark {margin-right: 10px; font-size: 1.2em;}</style>".

Definition css_class_of (identified : bool) : str :=
  if identified then lit "identified" else lit "not-identified".

(** The two check marks, U+2705 and U+274C, as UTF-8. *)
Definition checkmark_of (identified : bool) : str :=
  if identified then lit "✅" else lit "❌".

(** The markup one loop iteration appends. *)
Definition html_item (item : Item) : str :=
  lit "<div class=" ++ [dq] ++ lit "checklist-item " ++ css_class_of (identified item)
    ++ [dq] ++ lit ">"
    ++ lit "<span class=" ++ [dq] ++ lit "checkmark" ++ [dq] ++ lit ">"
    ++ checkmark_of (identified item) ++ lit "</span>"
    ++ lit "<span>" ++ detail item ++ lit "</span>"
    ++ lit "</div>".

(** [create_html_checklist(checklist)]; the function only reads the dicts,
    so it takes them as the list denotes them ([view]). *)
Definition create_html_checklist (checklist : list Item) : str :=
  html_header ++ concat (map html_item checklist) ++ lit "</div>".

End FallbackMode.

(** ** app.py *)

Module App.

(** *** extract_checklist_from_html *)

(** The constructs of the pattern
    [<div class='checklist-item ([^']+)'>\s*<span class='checkmark'>([^<]+)</span>\s*<span>([^<]+)</span>\s*</div>],
    where ['] stands for the double quote of the source. *)
Inductive re_elem : Type :=
| Lit (s : str)            (* literal text *)
| GroupNot (c : ascii)     (* [([^c]+)], a capturing group *)
| Spaces.                  (* [\s*] *)

Definition pattern : list re_elem :=
  [ Lit (lit "<div class=" ++ [FallbackMode.dq] ++ lit "checklist-item ");
    GroupNot FallbackMode.dq;
    Lit ([FallbackMode.dq] ++ lit ">");
    Spaces;
    Lit (lit "<span class=" ++ [FallbackMode.dq] ++ lit "checkmark" ++ [FallbackMode.dq]
           ++ lit ">");
    GroupNot "<"%char;
    Lit (lit "</span>");
    Spaces;
    Lit (lit "<span>");
    GroupNot "<"%char;
    Lit (lit "</span>");
    Spaces;
    Lit (lit "</div>") ].

(** The longest prefix of [s] without the character [c], and what follows. *)
Fixpoint span_not (c : ascii) (s : str) : str * str :=
  match s with
  | [] => ([], [])
  | a :: s' =>
      if Ascii.eqb a c then ([], s)
      else let '(g, rest) := span_not c s' in (a :: g, rest)
  end.

Fixpoint skip_spaces (s : str) : str :=
  match s with
  | [] => []
  | a :: s' => if isspace a then skip_spaces s' else s
  end.

(** Matching a pattern at the start of [s]: the captured groups (last one
    first in [groups]) and the unread rest.  Every repetition of the
    pattern is followed by a literal whose first character the repetition
    excludes, so the greedy choice is the only one that can succeed and no
    backtracking is modelled. *)
Fixpoint match_here (p : list re_elem) (s : str) (groups : list str)
    : option (list str * str) :=
  match p with
  | [] => Some (rev groups, s)
  | Lit l :: p' =>
      if startswith l s then match_here p' (drop (length l) s) groups else None
  | GroupNot c :: p' =>
      match span_not c s with
      | ([], _) => None
      | (g, rest) => match_here p' rest (g :: groups)
      end
  | Spaces :: p' => match_here p' (skip_spaces s) groups
  end.

(** [re.findall(pattern, s)]: scan left to right; after a match the scan
    resumes where the match ended.  [skip] counts the characters of the
    last match that are still to be passed over. *)
Fixpoint findall_go (p : list re_elem) (skip : nat) (s : str) : list (list str) :=
  match s with
  | [] => []
  | _ :: s' =>
      match skip with
      | S k => findall_go p k s'
      | 0 =>
          match match_here p s [] with
          | Some (groups, rest) =>
              groups :: findall_go p (length s - length rest - 1) s'
          | None => findall_go p 0 s'
          end
      end
  end.

Definition findall (p : list re_elem) (s : str) : list (list str) := findall_go p 0 s.

(** The loop body: [css_class, checkmark, detail = match]. *)
Definition item_of_match (i : nat) (m : list str) : Item :=
  let css_class := nth 0 m [] in
  let detail := nth 2 m [] in
  {| detail := detail;
     identified := contains (lit "identified") css_class;
     id := i |}.

(** [extract_checklist_from_html(html_content)]; [None] is Python's [None]. *)
Definition extract_checklist_from_html (html_content : option str) : list Item :=
  match html_content with
  | None => []
  | Some [] => []
  | Some html => imap item_of_match (findall pattern html)
  end.

(** *** update_progress *)

Definition float_of_nat (n : nat) : float :=
  PrimFloat.of_uint63 (Uint63.of_Z (Z.of_nat n)).

(** [(identified_items / total_items) * 100 if total_items > 0 else 0];
    both counts are far below 2^53, where Python's true division of two
    ints is the binary64 quotient of their conversions. *)
Definition percentage_of (identified_items total_items : nat) : float :=
  if 0 <? total_items
  then PrimFloat.mul (PrimFloat.div (float_of_nat identified_items) (float_of_nat total_items))
                     (float_of_nat 100)
  else float_of_nat 0.

(** [num / den] rounded to the nearest integer, ties to even. *)
Definition round_half_even (num den : Z) : Z :=
  let q := (num / den)%Z in
  match (2 * (num mod den) ?= den)%Z with
  | Lt => q
  | Gt => (q + 1)%Z
  | Eq => if Z.even q then q else (q + 1)%Z
  end.

Definition of_Z (z : Z) : str := of_nat (Z.to_nat z).

(** [f'{x:.1f}']: the exact binary value rounded to one decimal, ties to
    even, as CPython's correctly rounded conversion does. *)
Definition format_1f (x : float) : str :=
  let sign (s : bool) : str := if s then lit "-" else [] in
  match Prim2SF x with
  | S754_nan => lit "nan"
  | S754_infinity s => sign s ++ lit "inf"
  | S754_zero s => sign s ++ lit "0.0"
  | S754_finite s m e =>
      let tenths :=
        if (0 <=? e)%Z then (Z.pos m * 2 ^ e * 10)%Z
        else round_half_even (Z.pos m * 10) (2 ^ (- e)) in
      sign s ++ of_Z (tenths / 10) ++ lit "." ++ of_Z (tenths mod 10)
  end.

(** [sum(1 for item in checklist if item['identified'])] *)
Definition count_identified (checklist : list Item) : nat :=
  length (List.filter identified checklist).

Definition progress_line (identified_items total_items : nat) (percentage : float) : str :=
  lit "Progress: " ++ of_nat identified_items ++ lit "/" ++ of_nat total_items
    ++ lit " details (" ++ format_1f percentage ++ lit "%)".

(** [update_progress()] on [st.session_state.checklist].  The markup fetched
    from the gateway when connected is assigned and never used; the line is
    always computed locally. *)
Definition update_progress (checklist : list Item) : str :=
  match checklist with
  | [] => lit "No active session or no details to identify."
  | _ :: _ =>
      let total_items := length checklist in
      let identified_items := count_identified checklist in
      let percentage := percentage_of identified_items total_items in
      progress_line identified_items total_items percentage
  end.

(** *** The attempt counter *)

(** The counter update shared by both branches of [process_chat_message]:
    [attempt_count = active_session.get('attempt_count', 0)],
    [attempt_limit = active_session.get('attempt_limit', 3)],
    [if attempt_count < attempt_limit: active_session['attempt_count'] = attempt_count + 1]. *)
Definition record_attempt (s : Session) : Session :=
  let count := default 0%Z (attempt_count s) in
  let limit := default 3%Z (attempt_limit s) in
  if (count <? limit)%Z
  then {| attempt_count := Some (count + 1)%Z; attempt_limit := attempt_limit s |}
  else s.

(** The session [generate_image] installs:
    ['attempt_count': 0, 'attempt_limit': int(st.session_state.attempt_limit)]. *)
Definition new_session (limit : Z) : Session :=
  {| attempt_count := Some 0%Z; attempt_limit := Some limit |}.

(** [s.strip()] *)
Definition strip (s : str) : str := rev (skip_spaces (rev (skip_spaces s))).

Inductive speaker : Type := Child | Teacher.

(** The part of [st.session_state] the fallback branch works on. *)
Record state : Type := mkState {
  heap : gmap nat Item;
  checklist : list nat;
  active_session : Session;
  conversation_history : list (speaker * str);
  message : str
}.

(** [process_chat_message()] with [st.session_state.fallback_mode] set.
    The session dict of the application always exists and is not empty. *)
Definition process_chat_message (rnd : nat) (st : state) : state :=
  let user_message := strip (message st) in
  match user_message with
  | [] => st                     (* 'Please enter a description first' *)
  | _ :: _ =>
      let '(response, updated_checklist, h') :=
        FallbackMode.process_chat_message rnd user_message (checklist st)
          (Some (active_session st)) (heap st) in
      {| heap := h';
         checklist := updated_checklist;
         active_session := record_attempt (active_session st);
         conversation_history :=
           conversation_history st ++ [(Child, user_message); (Teacher, response)];
         message := [] |}
  end.

(** The warning of the attempts panel:
    [if attempt_count >= attempt_limit:
       if not all(item['identified'] for item in checklist): st.warning(...)]. *)
Definition maximum_attempts_text : str :=
  lit "⚠️ Maximum attempts reached. The next interaction will move to a new image.".

Definition attempts_warning (s : Session) (checklist : list Item) : option str :=
  let count := default 0%Z (attempt_count s) in
  let limit := default 3%Z (attempt_limit s) in
  if (limit <=? count)%Z
  then if negb (forallb identified checklist) then Some maximum_attempts_text else None
  else None.

End App.

(** ** visolearn_client.py *)

Module VisoLearnClient.

(** How a Python call ends. *)
Inductive outcome (E A : Type) : Type :=
| Returns (a : A)
| Raises (e : E).
Arguments Returns {E A} a.
Arguments Raises {E A} e.

Section ProcessDataUrl.

(** The two library calls of the function, [base64.b64decode] and
    [PIL.Image.open] on a [BytesIO], with the exceptions they may raise. *)
Variables (bytes image exn : Type).
Variable b64decode : str -> outcome exn bytes.
Variable image_open : bytes -> outcome exn image.
(** The [IndexError] of [data_url.split(',')[1]]. *)
Variable index_error : exn.

(** The body of the [try]. [None] is Python's [None]. *)
Definition try_body (data_url : option str) : outcome exn (option image) :=
  match data_url with
  | None => Returns None
  | Some [] => Returns None
  | Some url =>
      if startswith (lit "data:image") url
      then
        match split_on ","%char url !! 1 with
        | None => Raises index_error
        | Some base64_data =>
            match b64decode base64_data with
            | Raises e => Raises e
            | Returns image_data =>
                match image_open image_data with
                | Raises e => Raises e
                | Returns image => Returns (Some image)
                end
            end
        end
      else Returns None
  end.

(** [process_data_url(data_url)]: the handler of [except Exception] prints
    and falls off the end of the function, which returns [None]. *)
Definition process_data_url (data_url : option str) : outcome exn (option image) :=
  match try_body data_url with
  | Returns v => Returns v
  | Raises _ => Returns None
  end.

End ProcessDataUrl.

End VisoLearnClient.

(** ** Vocabulary of the statements *)

(** [w] occurs in [s] as a contiguous substring. *)
Definition occurs_in (w s : str) : Prop := exists pre suf, s = pre ++ w ++ suf.

(** *** Text in the ASCII range *)

(** A character of the ASCII range is one byte below 128. *)
Definition ascii_char (c : ascii) : bool := nat_of_ascii c <? 128.

(** A text all of whose characters are in the ASCII range.  On such a text
    the bytes are the characters: [length] is [len], [lower] is [str.lower]
    and [split] is [str.split]. *)
Definition ascii_text (s : str) : Prop := forallb ascii_char s = true.

(** *** The matching rule, in the words of the specification *)

(** The whitespace characters of the ASCII range: TAB, LF, VT, FF, CR, the
    separators FS, GS, RS and US, and the space. *)
Definition whitespace : list ascii :=
  ["009"; "010"; "011"; "012"; "013"; "028"; "029"; "030"; "031"; " "]%char.

Definition no_whitespace (s : str) : Prop := forall c, c ∈ s -> c ∉ whitespace.

Definition ends_in_whitespace (s : str) : Prop :=
  exists p c, s = p ++ [c] /\ c ∈ whitespace.

Definition starts_with_whitespace (s : str) : Prop :=
  exists c t, s = c :: t /\ c ∈ whitespace.

(** [w] is a whitespace-separated token of [s]: a run of characters, none of
    them whitespace and at least one, that begins where [s] begins or right
    after a whitespace character and ends where [s] ends or right before
    one. *)
Definition token_of (w s : str) : Prop :=
  w <> [] /\ no_whitespace w /\
  exists pre suf, s = pre ++ w ++ suf
    /\ (pre = [] \/ ends_in_whitespace pre)
    /\ (suf = [] \/ starts_with_whitespace suf).

(** The letters of the ASCII range, each capital with its small letter. *)
Definition letter_cases : list (ascii * ascii) :=
  zip (lit "ABCDEFGHIJKLMNOPQRSTUVWXYZ") (lit "abcdefghijklmnopqrstuvwxyz").

(** Two characters that are the same when letter case is ignored. *)
Definition same_letter (a b : ascii) : Prop :=
  a = b \/ (a, b) ∈ letter_cases \/ (b, a) ∈ letter_cases.

(** [w] occurs in [s] as a contiguous substring, letter case ignored. *)
Definition occurs_ignoring_case (w s : str) : Prop :=
  exists u, Forall2 same_letter w u /\ occurs_in u s.

(** Every character there is, for facts checked character by character. *)
Definition all_chars : list ascii := map ascii_of_nat (seq 0 256).

(** What the marking loop of [FallbackMode.process_chat_message] does to a
    dict it visits. *)
Definition marked (message : str) (item : Item) : Item :=
  if negb (identified item) && FallbackMode.detail_hit message (detail item)
  then set_identified item else item.

(** One utterance of a conversation: the raw draw its hint may use, the text
    and the session dict passed along. *)
Definition utterance : Type := nat * str * option Session.

(** A conversation in fallback mode: every call of
    [FallbackMode.process_chat_message] is fed the checklist the previous
    call returned. *)
Fixpoint run_chat (us : list utterance) (checklist : list loc) (h : store)
    : list loc * store :=
  match us with
  | [] => (checklist, h)
  | (rnd, message, active_session) :: us' =>
      let '(_, updated_checklist, h') :=
        FallbackMode.process_chat_message rnd message checklist active_session h in
      run_chat us' updated_checklist h'
  end.

(** Descriptions typed into the message box and submitted one after the
    other, each with the raw draw of its call. *)
Fixpoint submit_all (inputs : list (nat * str)) (st : App.state) : App.state :=
  match inputs with
  | [] => st
  | (rnd, text) :: rest =>
      let typed :=
        {| App.heap := App.heap st;
           App.checklist := App.checklist st;
           App.active_session := App.active_session st;
           App.conversation_history := App.conversation_history st;
           App.message := text |} in
      submit_all rest (App.process_chat_message rnd typed)
  end.

(** The operations of the application that write the attempt counter:
    generating an image installs a fresh session with the limit chosen in
    the sidebar, a processed description records an attempt. *)
Inductive operation : Type :=
| GenerateImage (limit : Z)
| SubmitDescription.

Definition apply_operation (s : Session) (op : operation) : Session :=
  match op with
  | GenerateImage limit => App.new_session limit
  | SubmitDescription => App.record_attempt s
  end.

(** [0 <= attempt_count <= attempt_limit], both keys present. *)
Definition within_limit (s : Session) : Prop :=
  exists count limit,
    attempt_count s = Some count /\ attempt_limit s = Some limit
    /\ (0 <= count <= limit)%Z.

(** The submitted descriptions that are processed: those that are not blank. *)
Definition processed (inputs : list (nat * str)) : nat :=
  length (List.filter (fun x => negb (bool_decide (App.strip (snd x) = []))) inputs).

(** The checklist a decoder faithful to the markup would return for
    [checklist]: same texts and flags, ids renumbered in document order. *)
Definition renumbered (checklist : list Item) : list Item :=
  imap (fun i item => {| detail := detail item; identified := identified item; id := i |})
       checklist.

(** A detail text the pattern of the decoder can capture: not empty and
    without the character [<]. *)
Definition capturable (text : str) : Prop := text <> [] /\ "<"%char ∉ text.

(** [s] differs from the literal [l] at a position both have, so no
    continuation of [s] starts with [l]. *)
Fixpoint clashes (l s : str) : bool :=
  match l, s with
  | a :: l', b :: s' => if Ascii.eqb a b then clashes l' s' else true
  | _, _ => false
  end.

(** [l] clashes with [s] at every position of [s]. *)
Fixpoint never_starts (l s : str) : bool :=
  match s with
  | [] => true
  | _ :: s' => clashes l s && never_starts l s'
  end.

(** ** visolearn_client.py: connecting to the Space *)

Module Gateway.

Import VisoLearnClient.

(** The exception classes the handlers of the client and of the application
  tell apart.  A tag stands for the first handler of [initialize] that
  accepts the exception: [RequestException] for what
  [requests.exceptions.RequestException] covers, [JSONDecodeError] for a
  [json.JSONDecodeError] that is not one of those, [OtherException] for
  any other [Exception] that is none of the three classes the client
  raises itself. *)
Inductive exn_class : Type :=
| ValueError | ConnectionError | RuntimeError
| RequestException | JSONDecodeError | OtherException.

(** An exception: its class and [str(e)]. *)
Record exn : Type := mkExn { exn_class_of : exn_class; exn_message : str }.

(** What the client reads of an HTTP response: [response.status_code] and
  [response.json().get('stage')], which may raise and may be [None]. *)
Record response : Type := mkResponse {
status_code : nat;
stage : outcome exn (option str)
}.

(** The requests the client sends. *)
Inductive request : Type :=
| GetRuntime                (* GET .../runtime, the first check *)
| PostWake                  (* POST .../wake *)
| PollRuntime (i : nat)     (* GET .../runtime, the [i]-th poll of the wait loop *)
| CreateClient.             (* [Client(space_name, hf_token=..., verbose=False)] *)

Section Initialize.

(** The Gradio client object. *)
Variable handle : Type.

(** How the network answers during one call of [initialize]. *)
Record network : Type := mkNetwork {
runtime_get : outcome exn response;
wake_post : outcome exn nat;                 (* the status code of the wake call *)
poll_get : nat -> outcome exn response;
create_client : outcome exn handle
}.

Definition space_name : str := lit "Compumacy/VisoLearn".

(** [error_msg] of a response whose status code is not 200. *)
Definition error_msg (code : nat) : str :=
lit "Failed to connect to " ++ space_name ++ lit ". Status code: " ++ of_nat code
++ (if code =? 401
    then lit ". Invalid or unauthorized token. Please check your Hugging Face token."
    else if code =? 404
    then lit ". Space not found. Check if the space name is correct."
    else if code =? 403
    then lit ". You don't have permission to access this private space."
    else []).

(** [f'{status}'] for a string or [None]. *)
Definition stage_text (status : option str) : str :=
match status with
| Some s => s
| None => lit "None"
end.

(** A computation that sends requests: the requests sent, in order, and how
it ends. *)
Definition traced (A : Type) : Type := list request * outcome exn A.

(** The wait loop [for _ in range(12)]: [left] polls remain, [i] were made.
An unsuccessful or not yet running poll is followed by the next one; the
loop has no [else], so running out of polls is not an error. *)
Fixpoint wait_for_running (net : network) (left i : nat) : traced unit :=
match left with
| 0 => ([], Returns ())
| S left' =>
  match poll_get net i with
  | Raises e => ([PollRuntime i], Raises e)
  | Returns status_response =>
      let continue :=
        let '(sent, r) := wait_for_running net left' (S i) in
        (PollRuntime i :: sent, r) in
      if status_code status_response =? 200
      then match stage status_response with
           | Raises e => ([PollRuntime i], Raises e)
           | Returns current_status =>
               if bool_decide (current_status = Some (lit "RUNNING"))
               then ([PollRuntime i], Returns ())
               else continue
           end
      else continue
  end
end.

(** The inner [try] around [Client(...)]. *)
Definition make_client (net : network) : traced handle :=
([CreateClient],
match create_client net with
| Returns c => Returns c
| Raises e =>
   Raises (mkExn ConnectionError
             (lit "Failed to initialize Gradio client: " ++ exn_message e))
end).

(** The body of the outer [try]. *)
Definition try_initialize (net : network) : traced handle :=
match runtime_get net with
| Raises e => ([GetRuntime], Raises e)
| Returns response =>
  if negb (status_code response =? 200)
  then ([GetRuntime], Raises (mkExn ConnectionError (error_msg (status_code response))))
  else
    match stage response with
    | Raises e => ([GetRuntime], Raises e)
    | Returns status =>
        if bool_decide (status = Some (lit "RUNNING"))
           || bool_decide (status = Some (lit "RUNNING_BUILDING"))
        then let '(sent, r) := make_client net in (GetRuntime :: sent, r)
        else if bool_decide (status = Some (lit "SLEEPING"))
        then
          match wake_post net with
          | Raises e => ([GetRuntime; PostWake], Raises e)
          | Returns wake_status =>
              if wake_status =? 200
              then
                match wait_for_running net 12 0 with
                | (polls, Raises e) => (GetRuntime :: PostWake :: polls, Raises e)
                | (polls, Returns _) =>
                    let '(sent, r) := make_client net in
                    (GetRuntime :: PostWake :: polls ++ sent, r)
                end
              else ([GetRuntime; PostWake],
                    Raises (mkExn ConnectionError
                              (lit "Failed to wake up the space " ++ space_name)))
          end
        else ([GetRuntime],
              Raises (mkExn ConnectionError
                        (lit "Space " ++ space_name
                           ++ lit " is not running. Current status: "
                           ++ stage_text status)))
    end
end.

(** The three [except] clauses of [initialize], tried in order. *)
Definition rewrap (e : exn) : exn :=
match exn_class_of e with
| RequestException =>
  mkExn ConnectionError
    (lit "Network error when connecting to Hugging Face: " ++ exn_message e)
| JSONDecodeError =>
  mkExn ConnectionError
    (lit "Invalid response from Hugging Face API: " ++ exn_message e)
| _ =>
  mkExn ConnectionError
    (lit "Failed to initialize VisoLearn client: " ++ exn_message e)
end.

Definition missing_token_message : str :=
lit "Hugging Face token is required to access the VisoLearn API. Please add your token to the .env file or enter it in the application.".

(** [initialize()] on a client whose token is [hf_token] ([[]] for a missing
or empty token): it returns [True] with [self.client] set, or raises. *)
Definition initialize (hf_token : str) (net : network) : traced handle :=
match hf_token with
| [] => ([], Raises (mkExn ValueError missing_token_message))
| _ :: _ =>
  match try_initialize net with
  | (sent, Returns c) => (sent, Returns c)
  | (sent, Raises e) => (sent, Raises (rewrap e))
  end
end.

(** [VisoLearnClient(hf_token=...)]:
[self.hf_token = hf_token or os.environ.get('HF_TOKEN')], then
[initialize()]. *)
Definition new_client (hf_token : str) (env_token : option str) (net : network)
: traced handle :=
let token := match hf_token with
           | [] => default [] env_token
           | _ :: _ => hf_token
           end in
initialize token net.

End Initialize.

Arguments mkNetwork {handle} _ _ _ _.
Arguments runtime_get {handle} _.
Arguments wake_post {handle} _.
Arguments poll_get {handle} _ _.
Arguments create_client {handle} _.

(** The requests of a wait loop that polls [n] times. *)
Definition polls (n : nat) : list request := map PollRuntime (seq 0 n).

End Gateway.

(** ** app.py: connection state, image generation, checklist refresh *)

Module AppUI.

Import VisoLearnClient Gateway.

Section Connection.

Variable handle : Type.

(** The connection part of [st.session_state]. *)
Record connection : Type := mkConnection {
hf_token : str;
client : option handle;
is_connected : bool;
connection_error : option str;
fallback_mode : bool
}.

(** The message [initialize_client] shows for a failed connection. *)
Definition error_message (detailed_error : str) : str :=
lit "⚠️ Failed to connect to VisoLearn API"
++ (if contains (lit "403") detailed_error
    then lit ": You don't have permission to access this private space. Please check that your token has the correct permissions."
    else if contains (lit "401") detailed_error
    then lit ": Invalid or unauthorized token. Please check your Hugging Face token."
    else if contains (lit "404") detailed_error
    then lit ": Space not found. The VisoLearn space may have been moved or renamed."
    else if contains (lit "sleeping") (lower detailed_error)
    then lit ": The space is sleeping. Trying to wake it up, please wait a moment and try again."
    else if contains (lit "not running") (lower detailed_error)
    then lit ": The space is not running. Please wait a moment and try again."
    else lit ": " ++ detailed_error).

Definition token_required_text : str :=
lit "⚠️ Hugging Face token is required. Please enter your token in the sidebar.".

(** [initialize_client()]: the new connection state, the error shown with
[st.error] if any, the requests sent, and the value returned. *)
Definition initialize_client (env_token : option str) (net : network handle)
(c : connection) : connection * option str * list request * bool :=
match hf_token c with
| [] =>
  ({| hf_token := hf_token c; client := client c; is_connected := false;
      connection_error := Some (lit "Missing Hugging Face token");
      fallback_mode := fallback_mode c |},
   Some token_required_text, [], false)
| _ :: _ =>
  match new_client handle (hf_token c) env_token net with
  | (sent, Returns new) =>
      ({| hf_token := hf_token c; client := Some new; is_connected := true;
          connection_error := None; fallback_mode := false |},
       None, sent, true)
  | (sent, Raises e) =>
      let detailed_error := exn_message e in
      ({| hf_token := hf_token c; client := client c; is_connected := false;
          connection_error := Some detailed_error;
          fallback_mode := fallback_mode c |},
       Some (error_message detailed_error), sent, false)
  end
end.

(** [toggle_fallback_mode()] *)
Definition toggle_fallback_mode (env_token : option str) (net : network handle)
(c : connection) : connection :=
let flipped :=
{| hf_token := hf_token c; client := client c; is_connected := is_connected c;
   connection_error := connection_error c;
   fallback_mode := negb (fallback_mode c) |} in
if fallback_mode flipped
then {| hf_token := hf_token c; client := client c; is_connected := false;
      connection_error := connection_error c; fallback_mode := true |}
else (initialize_client env_token net flipped).1.1.1.

(** The buttons 'Use Fallback Mode Instead' and 'Switch to Fallback Mode':
[st.session_state.fallback_mode = True]. *)
Definition switch_to_fallback (c : connection) : connection :=
{| hf_token := hf_token c; client := client c; is_connected := is_connected c;
 connection_error := connection_error c; fallback_mode := true |}.

(** The token field of the sidebar. *)
Definition enter_token (token : str) (c : connection) : connection :=
{| hf_token := token; client := client c; is_connected := is_connected c;
 connection_error := connection_error c; fallback_mode := fallback_mode c |}.

(** The handlers that write the connection state.  [ValidateToken] stands
for [validate_token] and for every other handler on its way through
[initialize_client()]. *)
Inductive action : Type :=
| ValidateToken (env_token : option str) (net : network handle)
| ToggleFallbackMode (env_token : option str) (net : network handle)
| SwitchToFallback
| EnterToken (token : str).

Definition act (c : connection) (a : action) : connection :=
match a with
| ValidateToken env_token net => (initialize_client env_token net c).1.1.1
| ToggleFallbackMode env_token net => toggle_fallback_mode env_token net c
| SwitchToFallback => switch_to_fallback c
| EnterToken token => enter_token token c
end.

(** The state the application starts in, with the token of the environment. *)
Definition initial_connection (token : str) : connection :=
{| hf_token := token; client := None; is_connected := false;
 connection_error := None; fallback_mode := false |}.

(** A connected application has a client to call and no pending error. *)
Definition consistent (c : connection) : Prop :=
is_connected c = true -> is_Some (client c) /\ connection_error c = None.

(** *** update_checklist *)

(** Fresh dicts for a new checklist: the store of the new dicts and the list
that refers to them.  The dicts of the replaced checklist are no longer
referred to. *)
Definition alloc_checklist (items : list Item) : gmap nat Item * list nat :=
(map_seq 0 items, seq 0 (length items)).

Definition install_checklist (items : list Item) (st : App.state) : App.state :=
{| App.heap := (alloc_checklist items).1;
 App.checklist := (alloc_checklist items).2;
 App.active_session := App.active_session st;
 App.conversation_history := App.conversation_history st;
 App.message := App.message st |}.

Definition placeholder_items : list Item :=
[ mkItem (lit "Object in image") false 0; mkItem (lit "Color") false 1;
mkItem (lit "Shape") false 2; mkItem (lit "Background") false 3 ].

(** [update_checklist()].  [gateway] is how [client.update_checklist()] ends,
[has_image] whether [active_session['image']] is set.  Every exception
of the [try] is reported and leaves the checklist as it is. *)
Definition update_checklist (env_token : option str) (net : network handle)
(gateway : outcome exn (option str)) (has_image : bool)
(c : connection) (st : App.state) : connection * App.state :=
if fallback_mode c then (c, st)
else
let '(c', _, _, ok) := initialize_client env_token net c in
if negb ok then (c', st)
else
  match gateway with
  | Raises _ => (c', st)
  | Returns html_content =>
      let extracted := App.extract_checklist_from_html html_content in
      match extracted with
      | [] => if has_image then (c', install_checklist placeholder_items st)
              else (c', install_checklist [] st)
      | _ :: _ => (c', install_checklist extracted st)
      end
  end.

End Connection.

Arguments mkConnection {handle} _ _ _ _ _.
Arguments hf_token {handle} _.
Arguments client {handle} _.
Arguments is_connected {handle} _.
Arguments connection_error {handle} _.
Arguments fallback_mode {handle} _.
Arguments consistent {handle} _.
Arguments act {handle} _ _.
Arguments SwitchToFallback {handle}.
Arguments EnterToken {handle} _.
Arguments ValidateToken {handle} _ _.
Arguments ToggleFallbackMode {handle} _ _.

(** *** generate_image in fallback mode *)

Section GenerateImage.

(** The dict [FallbackMode.generate_placeholder_image] returns. *)
Variable image : Type.

(** [FallbackMode.generate_placeholder_image(text=...)]: the image dict, or
[None] when drawing failed. *)
Variable generate_placeholder_image : str -> option image.

(** [f'Sample Image: {topic_focus}' if topic_focus else 'Sample Image'] *)
Definition image_text (topic_focus : str) : str :=
match topic_focus with
| [] => lit "Sample Image"
| _ :: _ => lit "Sample Image: " ++ topic_focus
end.

(** [generate_image()] with [fallback_mode] set: the new state, the new
value of [st.session_state.generated_image] and the value returned
([None] when the function falls off its end). *)
Definition generate_image (rng : nat -> nat) (topic_focus : str) (attempt_limit : Z)
(generated_image : option image) (st : App.state)
: App.state * option image * option bool :=
match generate_placeholder_image (image_text topic_focus) with
| Some result =>
  let items := FallbackMode.generate_placeholder_checklist rng topic_focus in
  ({| App.heap := (alloc_checklist items).1;
      App.checklist := (alloc_checklist items).2;
      App.active_session := App.new_session attempt_limit;
      App.conversation_history := [];
      App.message := App.message st |},
   Some result, Some true)
| None => (st, generated_image, None)
end.

End GenerateImage.

(** The texts of the child in a transcript, in order. *)
Definition child_texts (entries : list (App.speaker * str)) : list str :=
omap (fun entry => match fst entry with
                   | App.Child => Some (snd entry)
                   | App.Teacher => None
                   end) entries.

(** The descriptions that are not blank, stripped, in order. *)
Definition stripped_descriptions (inputs : list (nat * str)) : list str :=
List.filter (fun text => negb (bool_decide (text = [])))
            (map (fun x => App.strip (snd x)) inputs).

(** *** The attempts panel *)

(** [str(n)] for an integer. *)
Definition str_of_Z (z : Z) : str :=
if (z <? 0)%Z then lit "-" ++ of_nat (Z.to_nat (- z)) else of_nat (Z.to_nat z).

(** [f'Attempts: {display_count}/{attempt_limit}'] with
  [display_count = min(attempt_count, attempt_limit)]. *)
Definition attempts_line (s : Session) : str :=
let attempt_count := default 0%Z (attempt_count s) in
let attempt_limit := default 3%Z (attempt_limit s) in
let display_count := Z.min attempt_count attempt_limit in
lit "Attempts: " ++ str_of_Z display_count ++ lit "/" ++ str_of_Z attempt_limit.

End AppUI.

(** * Properties *)

(** ** Strings *)

Section StringFacts.

Lemma startswith_spec (p s : str) :
  startswith p s = true <-> exists suf, s = p ++ suf.
Proof.
  revert s; induction p as [|a p IH]; intros s; simpl.
  - split; [intros _; by exists s | done].
  - destruct s as [|b s].
    + split; [done | intros [suf Hs]; discriminate Hs].
    + destruct (Ascii.eqb_spec a b) as [->|Hne].
      * rewrite IH. split; intros [suf Hs]; exists suf; [by rewrite Hs | by simplify_eq].
      * split; [done | intros [suf Hs]; simplify_eq].
Qed.

Lemma startswith_app (p s : str) : startswith p (p ++ s) = true.
Proof. apply startswith_spec. by exists s. Qed.

(** [w in s] is the substring relation. *)
Lemma contains_spec (w s : str) : contains w s = true <-> occurs_in w s.
Proof.
  unfold occurs_in. induction s as [|c s IH]; simpl.
  - rewrite orb_false_r, startswith_spec. split.
    + intros [suf Hs]. by exists [], suf.
    + intros [pre [suf Hs]]. destruct pre; [exists suf; exact Hs | discriminate Hs].
  - rewrite orb_true_iff, startswith_spec, IH. split.
    + intros [[suf Hs] | [pre [suf Hs]]].
      * by exists [], suf.
      * exists (c :: pre), suf. by rewrite Hs.
    + intros [pre [suf Hs]]. destruct pre as [|c' pre].
      * left. exists suf. exact Hs.
      * right. simpl in Hs. injection Hs as _ Hs. by exists pre, suf.
Qed.

Lemma isspace_lower_char (c : ascii) : isspace (lower_char c) = isspace c.
Proof. destruct c as [[] [] [] [] [] [] [] []]; reflexivity. Qed.

Lemma length_lower (s : str) : length (lower s) = length s.
Proof. apply length_map. Qed.

Lemma rev_lower (s : str) : rev (lower s) = lower (rev s).
Proof. unfold lower. symmetry. apply map_rev. Qed.

Lemma split_go_lower (cur s : str) :
  split_go (lower cur) (lower s) = map lower (split_go cur s).
Proof.
  revert cur; induction s as [|c s IH]; intros cur.
  - destruct cur as [|a cur]; [done|].
    change (split_go (lower (a :: cur)) (lower [])) with [rev (lower (a :: cur))].
    by rewrite rev_lower.
  - change (lower (c :: s)) with (lower_char c :: lower s).
    cbn [split_go]. rewrite isspace_lower_char. destruct (isspace c).
    + destruct cur as [|a cur].
      * apply (IH []).
      * change (lower (a :: cur)) with (lower_char a :: lower cur).
        cbn iota. change (lower_char a :: lower cur) with (lower (a :: cur)).
        rewrite rev_lower. cbn [map]. f_equal. apply (IH []).
    + apply (IH (c :: cur)).
Qed.

(** Lowering a text and cutting it into words commute. *)
Lemma split_lower (s : str) : split (lower s) = map lower (split s).
Proof. apply (split_go_lower [] s). Qed.

(** [isspace] holds of the ten whitespace characters of the ASCII range. *)
Lemma isspace_whitespace (c : ascii) : isspace c = bool_decide (c ∈ whitespace).
Proof. destruct c as [[] [] [] [] [] [] [] []]; vm_compute; reflexivity. Qed.

Lemma all_chars_complete (c : ascii) : c ∈ all_chars.
Proof.
  unfold all_chars. apply list_elem_of_fmap. exists (nat_of_ascii c). split.
  - symmetry. apply ascii_nat_embedding.
  - apply elem_of_seq. pose proof (nat_ascii_bounded c). lia.
Qed.

(** [lower_char] identifies two characters exactly when they are the same
    letter, checked on every pair of characters. *)
Lemma same_letter_table :
  forallb (fun a => forallb (fun b =>
     Bool.eqb (bool_decide (same_letter a b)) (Ascii.eqb (lower_char a) (lower_char b)))
     all_chars) all_chars = true.
Proof. vm_compute. reflexivity. Qed.

Lemma same_letter_lower_char (a b : ascii) :
  same_letter a b <-> lower_char a = lower_char b.
Proof.
  pose proof same_letter_table as Ht.
  rewrite forallb_forall in Ht.
  specialize (Ht a (proj1 (list_elem_of_In _ _) (all_chars_complete a))).
  rewrite forallb_forall in Ht.
  specialize (Ht b (proj1 (list_elem_of_In _ _) (all_chars_complete b))).
  apply Bool.eqb_prop in Ht.
  rewrite <- (bool_decide_eq_true (same_letter a b)), Ht.
  split; [apply Ascii.eqb_eq | intros ->; apply Ascii.eqb_refl].
Qed.

Lemma occurs_in_lower (w s : str) : occurs_in w s -> occurs_in (lower w) (lower s).
Proof.
  intros (pre & suf & ->). exists (lower pre), (lower suf).
  unfold lower. by rewrite !map_app.
Qed.

(** Two texts have the same lowering when they agree letter by letter, case
    ignored. *)
Lemma lower_same_letters (w u : str) : lower w = lower u <-> Forall2 same_letter w u.
Proof.
  revert u. induction w as [|a w IH]; intros [|b u]; simpl.
  - split; [constructor | done].
  - split; [done | intros H; inversion H].
  - split; [done | intros H; inversion H].
  - split.
    + intros [= Hab Hwu]. constructor; [by apply same_letter_lower_char | by apply IH].
    + intros H. inversion H as [|? ? ? ? Hab Hwu]; subst.
      f_equal; [by apply same_letter_lower_char | by apply IH].
Qed.

(** Occurrence up to letter case is occurrence of the lowered word in the
    lowered text. *)
Lemma occurs_ignoring_case_lower (w s : str) :
  occurs_in (lower w) (lower s) <-> occurs_ignoring_case w s.
Proof.
  split.
  - intros (pre & suf & Hs). unfold lower in Hs.
    change (map lower_char s) with (lower_char <$> s) in Hs.
    apply fmap_app_inv in Hs as (s1 & s23 & -> & Hs23 & ->).
    symmetry in Hs23. apply fmap_app_inv in Hs23 as (s2 & s3 & Hw & -> & ->).
    exists s2. split; [by apply lower_same_letters | by exists s1, s3].
  - intros (u & Hwu & Hocc). apply lower_same_letters in Hwu. rewrite Hwu.
    by apply occurs_in_lower.
Qed.

Lemma isspace_true (c : ascii) : isspace c = true <-> c ∈ whitespace.
Proof. rewrite isspace_whitespace. apply bool_decide_eq_true. Qed.

Lemma isspace_false (c : ascii) : isspace c = false <-> c ∉ whitespace.
Proof. rewrite isspace_whitespace. apply bool_decide_eq_false. Qed.

Lemma no_whitespace_nil : no_whitespace [].
Proof. intros c Hc. by apply not_elem_of_nil in Hc. Qed.

Lemma no_whitespace_cons (c : ascii) (s : str) :
  no_whitespace (c :: s) <-> (c ∉ whitespace) /\ no_whitespace s.
Proof.
  unfold no_whitespace. split.
  - intros H. split; [apply H, list_elem_of_here | intros x Hx; by apply H, list_elem_of_further].
  - intros [Hc Hs] x Hx. apply elem_of_cons in Hx as [->|Hx]; [done | by apply Hs].
Qed.

Lemma no_whitespace_app (s t : str) :
  no_whitespace (s ++ t) <-> no_whitespace s /\ no_whitespace t.
Proof.
  unfold no_whitespace. split.
  - intros H. split; intros x Hx; apply H, elem_of_app; [by left | by right].
  - intros [Hs Ht] x Hx. apply elem_of_app in Hx as [Hx|Hx]; [by apply Hs | by apply Ht].
Qed.

Lemma no_whitespace_rev (s : str) : no_whitespace (rev s) <-> no_whitespace s.
Proof.
  unfold no_whitespace. split; intros H x Hx; apply H; apply list_elem_of_In;
    apply list_elem_of_In in Hx; [by rewrite <- in_rev | by rewrite in_rev].
Qed.

(** A token that begins after a whitespace character of [c :: s]. *)
Lemma later_token_cons (c : ascii) (s w : str) :
  (exists pre suf, c :: s = pre ++ w ++ suf /\ ends_in_whitespace pre
                   /\ (suf = [] \/ starts_with_whitespace suf))
  <-> (c ∈ whitespace /\ exists suf, s = w ++ suf /\ (suf = [] \/ starts_with_whitespace suf))
      \/ (exists pre suf, s = pre ++ w ++ suf /\ ends_in_whitespace pre
                          /\ (suf = [] \/ starts_with_whitespace suf)).
Proof.
  split.
  - intros (pre & suf & Hs & (p & x & -> & Hx) & Hsuf). destruct p as [|y p].
    + simpl in Hs. injection Hs as -> ->. left. split; [done | by exists suf].
    + simpl in Hs. injection Hs as -> ->. right. exists (p ++ [x]), suf.
      split; [done | split; [by exists p, x | done]].
  - intros [[Hc (suf & -> & Hsuf)] | (pre & suf & -> & (p & x & -> & Hx) & Hsuf)].
    + exists [c], suf. split; [done | split; [by exists [], c | done]].
    + exists (c :: p ++ [x]), suf. split; [done | split; [by exists (c :: p), x | done]].
Qed.

(** The token that the run [cur] read so far belongs to. *)
Lemma first_token_cons (cur : str) (c : ascii) (s w : str) :
  c ∉ whitespace ->
  (exists t suf, c :: s = t ++ suf /\ w = rev cur ++ t /\ no_whitespace t
                 /\ (suf = [] \/ starts_with_whitespace suf))
  <-> (exists t suf, s = t ++ suf /\ w = rev (c :: cur) ++ t /\ no_whitespace t
                     /\ (suf = [] \/ starts_with_whitespace suf)).
Proof.
  intros Hc. split.
  - intros (t & suf & Hs & -> & Ht & Hsuf). destruct t as [|x t].
    + simpl in Hs. subst suf. destruct Hsuf as [Hsuf | (y & u & [= <- <-] & Hy)]; done.
    + simpl in Hs. injection Hs as <- ->. apply no_whitespace_cons in Ht as [_ Ht].
      exists t, suf. split; [done|]. split; [|done]. simpl. by rewrite <- app_assoc.
  - intros (t & suf & -> & -> & Ht & Hsuf). exists (c :: t), suf.
    split; [done|]. split; [simpl; by rewrite <- app_assoc|].
    split; [by apply no_whitespace_cons | done].
Qed.

Lemma first_token_space (cur : str) (c : ascii) (s w : str) :
  c ∈ whitespace ->
  (exists t suf, c :: s = t ++ suf /\ w = rev cur ++ t /\ no_whitespace t
                 /\ (suf = [] \/ starts_with_whitespace suf))
  <-> w = rev cur.
Proof.
  intros Hc. split.
  - intros (t & suf & Hs & -> & Ht & Hsuf). destruct t as [|x t].
    + by rewrite app_nil_r.
    + simpl in Hs. injection Hs as <- ->. by apply no_whitespace_cons in Ht as [Hx _].
  - intros ->. exists [], (c :: s). rewrite app_nil_r.
    split; [done | split; [done | split; [apply no_whitespace_nil|]]].
    right. by exists c, s.
Qed.

Lemma rev_cons_not_nil (a : ascii) (cur : str) : rev (a :: cur) <> [].
Proof. simpl. intros H. apply app_eq_nil in H as [_ H]. discriminate H. Qed.

(** The words [split_go] returns: the word the run [cur] belongs to, and the
    words that begin after a whitespace character of [s]. *)
Lemma split_go_tokens (cur s w : str) :
  no_whitespace cur ->
  w ∈ split_go cur s <->
    w <> [] /\
    ((exists t suf, s = t ++ suf /\ w = rev cur ++ t /\ no_whitespace t
                    /\ (suf = [] \/ starts_with_whitespace suf))
     \/ (no_whitespace w /\
         exists pre suf, s = pre ++ w ++ suf /\ ends_in_whitespace pre
                         /\ (suf = [] \/ starts_with_whitespace suf))).
Proof.
  revert cur. induction s as [|c s IH]; intros cur Hcur.
  - assert (Hlater : ~ exists pre suf : str, [] = pre ++ w ++ suf /\ ends_in_whitespace pre
                                   /\ (suf = [] \/ starts_with_whitespace suf)).
    { intros (pre & suf & Hs & (p & x & -> & _) & _). destruct p; discriminate Hs. }
    destruct cur as [|a cur]; cbn [split_go].
    + split; [intros H; by apply not_elem_of_nil in H|].
      intros [Hw [(t & suf & Hs & -> & _) | [_ H]]]; [|done].
      symmetry in Hs. apply app_eq_nil in Hs as [-> ->]. done.
    + rewrite list_elem_of_singleton. split.
      * intros ->. split; [apply rev_cons_not_nil|]. left. exists [], [].
        split; [done|]. split; [by rewrite app_nil_r|].
        split; [apply no_whitespace_nil | by left].
      * intros [Hw [(t & suf & Hs & -> & _) | [_ H]]]; [|done].
        symmetry in Hs. apply app_eq_nil in Hs as [-> ->]. by rewrite app_nil_r.
  - cbn [split_go]. destruct (isspace c) eqn:Hc.
    + apply isspace_true in Hc.
      rewrite (first_token_space cur c s w Hc), later_token_cons.
      destruct cur as [|a cur].
      * rewrite (IH [] no_whitespace_nil). simpl. split.
        -- intros [Hw [(t & suf & -> & -> & Ht & Hsuf) | [Hnw H]]].
           ++ split; [done|]. right. split; [done|]. left. split; [done|]. by exists suf.
           ++ split; [done|]. right. split; [done|]. by right.
        -- intros [Hw [-> | [Hnw [[_ (suf & -> & Hsuf)] | H]]]]; [done | |].
           ++ split; [done|]. left. by exists w, suf.
           ++ split; [done|]. right. by split.
      * rewrite elem_of_cons, (IH [] no_whitespace_nil). split.
        -- intros [-> | [Hw [(t & suf & -> & -> & Ht & Hsuf) | [Hnw H]]]].
           ++ split; [apply rev_cons_not_nil | by left].
           ++ split; [done|]. right. split; [done|]. left. split; [done|]. by exists suf.
           ++ split; [done|]. right. split; [done|]. by right.
        -- intros [Hw [-> | [Hnw [[_ (suf & -> & Hsuf)] | H]]]]; [by left | |].
           ++ right. split; [done|]. left. by exists w, suf.
           ++ right. split; [done|]. right. by split.
    + apply isspace_false in Hc.
      rewrite (first_token_cons cur c s w Hc), later_token_cons.
      rewrite (IH (c :: cur)) by (by apply no_whitespace_cons).
      split.
      * intros [Hw [H | [Hnw H]]]; (split; [done|]); [by left|].
        right. split; [done | by right].
      * intros [Hw [H | [Hnw [[Hc' _] | H]]]]; [| done |]; (split; [done|]); [by left|].
        right. by split.
Qed.

(** [split] returns the whitespace-separated tokens of the text. *)
Lemma split_tokens (s w : str) : w ∈ split s <-> token_of w s.
Proof.
  unfold split, token_of. rewrite (split_go_tokens [] s w no_whitespace_nil). split.
  - intros [Hw [(t & suf & -> & -> & Ht & Hsuf) | [Hnw (pre & suf & -> & Hpre & Hsuf)]]].
    + split; [done|]. split; [done|]. exists [], suf. split; [done | split; [by left | done]].
    + split; [done|]. split; [done|]. exists pre, suf. split; [done | split; [by right | done]].
  - intros [Hw [Hnw (pre & suf & -> & [-> | Hpre] & Hsuf)]]; (split; [done|]).
    + left. by exists w, suf.
    + right. split; [done|]. by exists pre, suf.
Qed.

Lemma endswith_app (p s : str) : endswith p (s ++ p) = true.
Proof. unfold endswith. rewrite rev_app_distr. apply startswith_app. Qed.

End StringFacts.

(** ** The marking loop *)

Section Marking.

Import FallbackMode.

Lemma marked_idemp (message : str) (item : Item) :
  marked message (marked message item) = marked message item.
Proof.
  unfold marked. destruct item as [d [] i]; simpl; [done|].
  destruct (detail_hit message d) eqn:Hd; simpl; [done | by rewrite Hd].
Qed.

Lemma marked_identified (message : str) (item : Item) :
  identified (marked message item)
  = identified item || detail_hit message (detail item).
Proof.
  unfold marked. destruct item as [d [] i]; simpl; [done|].
  by destruct (detail_hit message d).
Qed.

(** An identified dict is left as it is. *)
Lemma marked_skip (message : str) (item : Item) :
  identified item = true -> marked message item = item.
Proof. unfold marked. by intros ->. Qed.

(** One iteration touches the visited dict only. *)
Lemma visit_lookup (message : str) (h : store) (r r' : loc) :
  visit message h r !! r'
  = (if decide (r' = r) then marked message else (fun x => x)) <$> (h !! r').
Proof.
  unfold visit. destruct (h !! r) as [item|] eqn:Hr.
  - assert (Hm : (if identified item then h
                  else if detail_hit message (detail item)
                       then <[r:=set_identified item]> h else h)
                 = <[r := marked message item]> h).
    { unfold marked. destruct (identified item); simpl.
      - by rewrite insert_id.
      - destruct (detail_hit message (detail item)); [done | by rewrite insert_id]. }
    rewrite Hm. destruct (decide (r' = r)) as [->|Hne].
    + by rewrite lookup_insert_eq, Hr.
    + rewrite lookup_insert_ne by done. by destruct (h !! r').
  - destruct (decide (r' = r)) as [->|Hne]; [by rewrite Hr | by destruct (h !! r')].
Qed.

(** The loop as a whole: every dict the list refers to is [marked], all
    others are untouched.  A dict referred to twice is marked once. *)
Lemma mark_items_lookup (message : str) (refs : list loc) (h : store) (r : loc) :
  mark_items message refs h !! r
  = (if decide (r ∈ refs) then marked message else (fun x => x)) <$> (h !! r).
Proof.
  unfold mark_items. revert h. induction refs as [|a refs IH]; intros h.
  - simpl. destruct (decide (r ∈ [])) as [Hin|_]; [by apply not_elem_of_nil in Hin|].
    by destruct (h !! r).
  - simpl. rewrite IH, visit_lookup.
    destruct (h !! r) as [item|]; simpl; [|by repeat case_decide].
    f_equal.
    destruct (decide (r = a)) as [Heq|Hne], (decide (r ∈ refs)) as [Hin|Hnin],
      (decide (r ∈ a :: refs)) as [Hc|Hc]; try done;
      try (rewrite elem_of_cons in Hc; tauto).
    apply marked_idemp.
Qed.

(** The words are tried in order up to the first hit. *)
Lemma scan_words_spec (message_lower : str) (detail_words : list str) :
  scan_words message_lower detail_words = true
  <-> exists word, word ∈ detail_words /\ word_hit message_lower word = true.
Proof.
  induction detail_words as [|w ws IH]; simpl.
  - split; [done | intros [word [Hin _]]; by apply not_elem_of_nil in Hin].
  - destruct (word_hit message_lower w) eqn:Hw.
    + split; [intros _; exists w; split; [apply list_elem_of_here | done] | done].
    + rewrite IH. split; intros [word [Hin Hhit]]; exists word.
      * split; [by apply list_elem_of_further | done].
      * apply elem_of_cons in Hin as [->|Hin]; [congruence | done].
Qed.

(** The test on a detail text, in the words of the matching rule: some
    word of the text longer than three characters occurs in the utterance,
    letter case ignored. *)
Lemma detail_hit_spec (message detail_text : str) :
  detail_hit message detail_text = true
  <-> exists token, token ∈ split detail_text /\ 3 < length token
                    /\ occurs_in (lower token) (lower message).
Proof.
  unfold detail_hit. rewrite scan_words_spec, split_lower. split.
  - intros [word [Hin Hhit]]. apply list_elem_of_fmap in Hin as [token [-> Hin]].
    exists token. unfold word_hit in Hhit. apply andb_true_iff in Hhit as [Hlen Hc].
    rewrite length_lower in Hlen. apply Nat.ltb_lt in Hlen.
    by rewrite contains_spec in Hc.
  - intros [token [Hin [Hlen Hocc]]]. exists (lower token). split.
    + apply list_elem_of_fmap. by exists token.
    + unfold word_hit. rewrite length_lower. apply andb_true_iff. split.
      * by apply Nat.ltb_lt.
      * by apply contains_spec.
Qed.

(** The same test without the functions of the code: some whitespace-separated
    token of the detail text, longer than three characters, occurs in the
    utterance when letter case is ignored. *)
Lemma detail_hit_tokens (message detail_text : str) :
  detail_hit message detail_text = true
  <-> exists token, token_of token detail_text /\ 3 < length token
                    /\ occurs_ignoring_case token message.
Proof.
  rewrite detail_hit_spec. split; intros (token & Hin & Hlen & Hocc); exists token.
  - split; [by apply split_tokens|]. split; [done | by apply occurs_ignoring_case_lower].
  - split; [by apply split_tokens|]. split; [done | by apply occurs_ignoring_case_lower].
Qed.

(** The count compares every dict with itself when the second list holds
    the same references as the first. *)
Lemma newly_identified_from_aliased (h : store) (updated checklist : list loc) (i : nat) :
  (forall k r, updated !! k = Some r -> checklist !! (i + k) = Some r) ->
  newly_identified_from h i updated checklist = 0.
Proof.
  revert i. induction updated as [|r updated IH]; intros i Hal; simpl; [done|].
  rewrite (IH (S i)).
  - specialize (Hal 0 r eq_refl). rewrite Nat.add_0_r in Hal. rewrite Hal. simpl.
    by destruct (ident h r).
  - intros k r' Hk. specialize (Hal (S k) r' Hk). by rewrite Nat.add_succ_r in Hal.
Qed.

Lemma newly_identified_copy (h : store) (checklist : list loc) :
  newly_identified h (list_copy checklist) checklist = 0.
Proof. apply newly_identified_from_aliased. intros k r Hk. exact Hk. Qed.

(** So the response before the attempt warning is a hint or the completion
    message. *)
Lemma base_response_copy (rnd : nat) (h : store) (checklist : list loc) :
  base_response rnd h (list_copy checklist) checklist
  = match unidentified_details h checklist with
    | [] => completion
    | _ :: _ =>
        hint_question (random_choice rnd (unidentified_details h checklist))
    end.
Proof. unfold base_response. by rewrite newly_identified_copy. Qed.

End Marking.

(** ** FallbackMode.process_chat_message *)

Section ProcessChatMessage.

Import FallbackMode.

(** The store after a call, in terms of the store before it. *)
Lemma process_chat_message_store (rnd : nat) (message : str) (checklist : list loc)
    (active_session : option Session) (h : store) :
  let '(_, updated_checklist, h') :=
    process_chat_message rnd message checklist active_session h in
  updated_checklist = checklist /\
  forall r, h' !! r
            = (if decide (r ∈ checklist) then marked message else (fun x => x)) <$> (h !! r).
Proof.
  unfold process_chat_message, list_copy. split; [done|].
  intros r. apply mark_items_lookup.
Qed.

(** C1 (the code departs from it).  A call that newly marks an item does
    not answer with the affirmation: the count of newly identified items
    compares each dict of the copied list with the same dict of the
    original list, and is 0 on every input, so the response before the
    attempt warning is always a hint question or the completion message.
    On the utterance 'look at the shadows and highlights' and the single
    unidentified item 'Shadows and highlights' the item is marked and the
    response is the completion message, not 'Great job! You identified 1
    new detail.' *)
Theorem process_chat_message_never_affirms :
  (forall rnd message checklist active_session (h : store),
      let h' := mark_items message (list_copy checklist) h in
      newly_identified h' (list_copy checklist) checklist = 0 /\
      (base_response rnd h' (list_copy checklist) checklist = completion \/
       exists hint_item, hint_item ∈ unidentified_details h' checklist /\
         base_response rnd h' (list_copy checklist) checklist = hint_question hint_item) /\
      (process_chat_message rnd message checklist active_session h).1.1
      = base_response rnd h' (list_copy checklist) checklist
          ++ (if warns active_session h' checklist then last_attempt_warning else []))
  /\
  (let h : store := {[ 0 := mkItem (lit "Shadows and highlights") false 0 ]} in
   let '(response, updated_checklist, h') :=
     process_chat_message 0 (lit "look at the shadows and highlights") [0] None h in
   view h [0] = [mkItem (lit "Shadows and highlights") false 0] /\
   view h' updated_checklist = [mkItem (lit "Shadows and highlights") true 0] /\
   response = lit "Wonderful! You've identified all the details in this image." /\
   response <> affirmation 1).
Proof.
  split.
  - intros rnd message checklist active_session h h'. split; [|split].
    + apply newly_identified_copy.
    + rewrite base_response_copy.
      destruct (unidentified_details h' checklist) as [|d ds] eqn:Hu; [by left|].
      right. exists (random_choice rnd (d :: ds)). split; [|done].
      unfold random_choice. apply list_elem_of_In, nth_In.
      apply Nat.mod_upper_bound. simpl. lia.
    + unfold process_chat_message. fold h'. simpl. unfold list_copy.
      destruct (warns active_session h' checklist); [done | by rewrite app_nil_r].
  - vm_compute. repeat split; discriminate.
Qed.



(** A conversation never changes the list of references. *)
Lemma run_chat_checklist (us : list utterance) (checklist : list loc) (h : store) :
  (run_chat us checklist h).1 = checklist.
Proof.
  revert h. induction us as [|[[rnd message] active_session] us IH]; intros h; [done|].
  simpl. unfold list_copy. apply IH.
Qed.

Lemma run_chat_app (us1 us2 : list utterance) (checklist : list loc) (h : store) :
  run_chat (us1 ++ us2) checklist h
  = run_chat us2 (run_chat us1 checklist h).1 (run_chat us1 checklist h).2.
Proof.
  revert checklist h.
  induction us1 as [|[[rnd message] active_session] us1 IH]; intros checklist h; [done|].
  simpl. apply IH.
Qed.

(** An identified dict survives a whole conversation unchanged. *)
Lemma run_chat_keeps_identified (us : list utterance) (checklist : list loc) (h : store)
    (r : loc) (item : Item) :
  h !! r = Some item -> identified item = true ->
  (run_chat us checklist h).2 !! r = Some item.
Proof.
  revert checklist h.
  induction us as [|[[rnd message] active_session] us IH]; intros checklist h Hr Hid; [done|].
  simpl. apply IH; [|done]. rewrite mark_items_lookup, Hr. simpl. f_equal.
  case_decide; [by apply marked_skip | done].
Qed.

(** C4.  Monotonicity.  A call leaves every identified item exactly as it
    is (it is skipped, not evaluated again), and along any sequence of
    utterances, each call fed the checklist the previous one returned, an
    item that is identified after some prefix of the sequence is identified
    after every longer prefix: no flag goes from true back to false. *)
Theorem identified_items_stay_identified :
  (forall rnd message checklist active_session (h : store) r item,
      h !! r = Some item -> identified item = true ->
      let '(_, updated_checklist, h') :=
        process_chat_message rnd message checklist active_session h in
      updated_checklist = checklist /\ h' !! r = Some item)
  /\
  (forall (us1 us2 : list utterance) checklist (h : store) r,
      ident (run_chat us1 checklist h).2 r = true ->
      ident (run_chat (us1 ++ us2) checklist h).2 r = true)
  /\
  (forall (us1 us2 : list utterance) checklist (h : store) i item,
      view (run_chat us1 checklist h).2 (run_chat us1 checklist h).1 !! i = Some item ->
      identified item = true ->
      view (run_chat (us1 ++ us2) checklist h).2 (run_chat (us1 ++ us2) checklist h).1 !! i
      = Some item).
Proof.
  split; [|split].
  - intros rnd message checklist active_session h r item Hr Hid.
    pose proof (process_chat_message_store rnd message checklist active_session h) as Hst.
    destruct (process_chat_message rnd message checklist active_session h)
      as [[response updated_checklist] h'].
    destruct Hst as [Hupd Hst]. split; [done|].
    rewrite Hst, Hr. simpl. f_equal. case_decide; [by apply marked_skip | done].
  - intros us1 us2 checklist h r. rewrite run_chat_app. unfold ident at 1.
    destruct ((run_chat us1 checklist h).2 !! r) as [item|] eqn:Hr; [|done].
    intros Hid. unfold ident.
    by rewrite (run_chat_keeps_identified us2 _ _ r item Hr Hid).
  - intros us1 us2 checklist h i item Hi Hid.
    rewrite !run_chat_checklist in *. rewrite run_chat_app, run_chat_checklist.
    unfold view in *. rewrite list_lookup_fmap in *.
    destruct (checklist !! i) as [r|] eqn:Hci; [|done]. simpl in *.
    injection Hi as Hi.
    destruct ((run_chat us1 checklist h).2 !! r) as [item'|] eqn:Hr.
    + rewrite (lookup_total_correct _ _ _ Hr) in Hi. subst item'.
      by rewrite (lookup_total_correct _ _ _
                    (run_chat_keeps_identified us2 checklist _ r item Hr Hid)).
    + rewrite lookup_total_alt, Hr in Hi. simpl in Hi. subst item. discriminate Hid.
Qed.

(** C4 on a two-utterance conversation: the item identified by the first
    utterance is still identified after the second. *)
Lemma identified_items_stay_identified_witness :
  let h : store := {[ 0 := mkItem (lit "Animal type") false 0;
                      1 := mkItem (lit "Color scheme") true 1 ]} in
  let us1 : list utterance := [(0, lit "what a lovely animal", None)] in
  let us2 : list utterance := [(1, lit "I see a big red dog", None)] in
  (process_chat_message 0 (lit "a color scheme") [0; 1] None h).2 !! 1
  = Some (mkItem (lit "Color scheme") true 1)
  /\ ident (run_chat (us1 ++ us2) [0; 1] h).2 0 = true
  /\ view (run_chat (us1 ++ us2) [0; 1] h).2 (run_chat (us1 ++ us2) [0; 1] h).1 !! 0
     = Some (mkItem (lit "Animal type") true 0).
Proof.
  pose (h := ({[ 0 := mkItem (lit "Animal type") false 0;
                 1 := mkItem (lit "Color scheme") true 1 ]} : store)).
  pose (us1 := [(0, lit "what a lovely animal", None)] : list utterance).
  pose (us2 := [(1, lit "I see a big red dog", None)] : list utterance).
  split; [|split].
  - exact (proj2 (proj1 identified_items_stay_identified
                    0 (lit "a color scheme") [0; 1] None h 1
                    (mkItem (lit "Color scheme") true 1) eq_refl eq_refl)).
  - exact (proj1 (proj2 identified_items_stay_identified) us1 us2 [0; 1] h 0 eq_refl).
  - exact (proj2 (proj2 identified_items_stay_identified) us1 us2 [0; 1] h 0
             (mkItem (lit "Animal type") true 0) eq_refl eq_refl).
Defined.

End ProcessChatMessage.

(** ** The last-attempt warning *)

Section LastAttemptWarning.

Import FallbackMode.

Lemma endswith_warning_completion : endswith last_attempt_warning completion = false.
Proof. vm_compute. reflexivity. Qed.

Lemma endswith_warning_hint (hint_item : str) :
  endswith last_attempt_warning (hint_question hint_item) = false.
Proof.
  unfold endswith, hint_question. rewrite app_assoc, rev_app_distr. reflexivity.
Qed.

(** No response ends with the warning before the closing [if] runs. *)
Lemma endswith_warning_base (rnd : nat) (h : store) (checklist : list loc) :
  endswith last_attempt_warning (base_response rnd h (list_copy checklist) checklist)
  = false.
Proof.
  rewrite base_response_copy. destruct (unidentified_details h checklist).
  - apply endswith_warning_completion.
  - apply endswith_warning_hint.
Qed.

(** C8 (the code departs from it).  For a session whose attempt limit is
    set (present and not zero) the call appends the warning exactly when
    [attempt_count + 1 >= attempt_limit] (an absent count reads as 0) and
    not every item of the updated checklist is identified.  While the
    count is below the limit this is what the claim says: the warning
    comes exactly at [attempt_count = attempt_limit - 1].  At the limit it
    is not: with [attempt_count] = [attempt_limit] = 3 and the item
    'Animal type' still open, the answer to 'I see a big red dog' ends
    with the warning although the count is not [attempt_limit - 1].  The
    counter of app.py stays at the limit, so every further description is
    answered with 'This is your last attempt' again. *)
Theorem last_attempt_warning_iff :
  (forall rnd message checklist session (h : store) limit,
      attempt_limit session = Some limit -> limit <> 0%Z ->
      let count := default 0%Z (attempt_count session) in
      let '(response, updated_checklist, h') :=
        process_chat_message rnd message checklist (Some session) h in
      (endswith last_attempt_warning response = true
       <-> (limit <= count + 1)%Z /\ all_identified h' updated_checklist = false)
      /\ response
         = base_response rnd h' updated_checklist checklist
             ++ (if (limit <=? count + 1)%Z && negb (all_identified h' updated_checklist)
                 then last_attempt_warning else [])
      /\ ((count < limit)%Z ->
          (endswith last_attempt_warning response = true
           <-> count = (limit - 1)%Z /\ all_identified h' updated_checklist = false)))
  /\
  (let h : store := {[ 0 := mkItem (lit "Animal type") false 0 ]} in
   let '(response, updated_checklist, h') :=
     process_chat_message 0 (lit "I see a big red dog") [0]
       (Some (mkSession (Some 3%Z) (Some 3%Z))) h in
   endswith last_attempt_warning response = true
   /\ all_identified h' updated_checklist = false
   /\ (3 <> 3 - 1)%Z)
  /\
  (forall rnd (st : App.state) limit,
      (0 < limit)%Z ->
      App.active_session st = mkSession (Some limit) (Some limit) ->
      App.strip (App.message st) <> [] ->
      let st' := App.process_chat_message rnd st in
      App.active_session st' = App.active_session st
      /\ (all_identified (App.heap st') (App.checklist st') = false ->
          exists response,
            App.conversation_history st'
            = App.conversation_history st
                ++ [(App.Child, App.strip (App.message st)); (App.Teacher, response)]
            /\ endswith last_attempt_warning response = true)).
Proof.
  assert (Hgeneral : forall rnd message checklist session (h : store) limit,
    attempt_limit session = Some limit -> limit <> 0%Z ->
    let count := default 0%Z (attempt_count session) in
    let '(response, updated_checklist, h') :=
      process_chat_message rnd message checklist (Some session) h in
    (endswith last_attempt_warning response = true
     <-> (limit <= count + 1)%Z /\ all_identified h' updated_checklist = false)
    /\ response
       = base_response rnd h' updated_checklist checklist
           ++ (if (limit <=? count + 1)%Z && negb (all_identified h' updated_checklist)
               then last_attempt_warning else [])).
  { intros rnd message checklist session h limit Hlimit Hnz count.
    unfold process_chat_message.
    set (h' := mark_items message (list_copy checklist) h).
    assert (Hw : warns (Some session) h' (list_copy checklist)
                 = (limit <=? count + 1)%Z
                   && negb (all_identified h' (list_copy checklist))).
    { unfold warns. rewrite Hlimit. by destruct (Z.eqb_spec limit 0). }
    rewrite Hw.
    destruct ((limit <=? count + 1)%Z) eqn:Hle;
      destruct (all_identified h' (list_copy checklist)) eqn:Hall; simpl;
      rewrite ?app_nil_r, ?endswith_app, ?endswith_warning_base;
      (split; [|reflexivity]).
    - split; [done | intros [_ ?]; done].
    - apply Z.leb_le in Hle. by split.
    - split; [done | intros [_ ?]; done].
    - apply Z.leb_gt in Hle. split; [done | intros [? _]; lia]. }
  split; [|split].
  - intros rnd message checklist session h limit Hlimit Hnz count.
    pose proof (Hgeneral rnd message checklist session h limit Hlimit Hnz) as Hg.
    cbv zeta in Hg. fold count in Hg.
    destruct (process_chat_message rnd message checklist (Some session) h)
      as [[response updated_checklist] h'].
    destruct Hg as [Hiff Hresp]. split; [done|]. split; [done|].
    intros Hbelow. rewrite Hiff. split; intros [Hc Hall]; (split; [lia | done]).
  - vm_compute. repeat split; discriminate.
  - intros rnd st limit Hpos Hsession Hmessage st'.
    assert (Hnz : limit <> 0%Z) by lia.
    pose proof (Hgeneral rnd (App.strip (App.message st)) (App.checklist st)
                  (App.active_session st) (App.heap st) limit) as Hg.
    rewrite Hsession in Hg. specialize (Hg eq_refl Hnz). cbv zeta in Hg.
    cbn [attempt_count default from_option] in Hg. unfold Datatypes.id in Hg.
    subst st'. unfold App.process_chat_message.
    destruct (App.strip (App.message st)) as [|c user_message] eqn:Hstrip; [done|].
    rewrite Hsession.
    destruct (process_chat_message rnd (c :: user_message) (App.checklist st)
                (Some (mkSession (Some limit) (Some limit))) (App.heap st))
      as [[response updated_checklist] h'].
    cbn [App.active_session App.heap App.checklist App.conversation_history].
    destruct Hg as [Hiff _]. split.
    + unfold App.record_attempt. cbn [attempt_count attempt_limit default from_option].
      unfold Datatypes.id. by rewrite Z.ltb_irrefl.
    + intros Hall. exists response. split; [done|]. apply Hiff. split; [lia | done].
Qed.

(** C8 on the first description of a session that allows one attempt, and
    on a description submitted when the three attempts are used up. *)
Lemma last_attempt_warning_iff_witness :
  (let h : store := {[ 0 := mkItem (lit "Animal type") false 0 ]} in
   let '(response, updated_checklist, h') :=
     process_chat_message 0 (lit "I see a big red dog") [0]
       (Some (mkSession (Some 0%Z) (Some 1%Z))) h in
   endswith last_attempt_warning response = true
   <-> (1 <= 0 + 1)%Z /\ all_identified h' updated_checklist = false)
  /\
  (let st := App.mkState {[ 0 := mkItem (lit "Animal type") false 0 ]} [0]
               (mkSession (Some 3%Z) (Some 3%Z)) [] (lit " a red dog ") in
   App.active_session (App.process_chat_message 0 st) = App.active_session st).
Proof.
  split.
  - exact (proj1 (proj1 last_attempt_warning_iff 0 (lit "I see a big red dog") [0]
                    (mkSession (Some 0%Z) (Some 1%Z))
                    {[ 0 := mkItem (lit "Animal type") false 0 ]} 1%Z eq_refl
                    ltac:(discriminate))).
  - exact (proj1 (proj2 (proj2 last_attempt_warning_iff) 0
                    (App.mkState {[ 0 := mkItem (lit "Animal type") false 0 ]} [0]
                       (mkSession (Some 3%Z) (Some 3%Z)) [] (lit " a red dog "))
                    3%Z ltac:(lia) eq_refl ltac:(discriminate))).
Defined.

End LastAttemptWarning.

(** ** The attempt counter of app.py *)

Section Attempts.

Import App.

(** One recorded attempt on a session whose two keys are present and whose
    count is within the limit. *)
Lemma record_attempt_within (count limit : Z) :
  (count <= limit)%Z ->
  record_attempt (mkSession (Some count) (Some limit))
  = mkSession (Some (Z.min (count + 1) limit)) (Some limit).
Proof.
  intros Hle. unfold record_attempt. simpl. destruct (Z.ltb_spec count limit).
  - by rewrite Z.min_l by lia.
  - rewrite Z.min_r by lia. by replace count with limit by lia.
Qed.

Lemma iter_record_attempt (n : nat) (limit : Z) :
  (0 <= limit)%Z ->
  Nat.iter n record_attempt (new_session limit)
  = mkSession (Some (Z.min (Z.of_nat n) limit)) (Some limit).
Proof.
  intros Hl. induction n as [|n IH].
  - simpl. unfold new_session. by rewrite Z.min_l by lia.
  - rewrite Nat.iter_succ, IH, record_attempt_within by lia.
    do 2 f_equal. lia.
Qed.

(** The fallback branch records an attempt exactly for the descriptions
    that are not blank. *)
Lemma submit_all_session (inputs : list (nat * str)) (st : state) :
  active_session (submit_all inputs st)
  = Nat.iter (processed inputs) record_attempt (active_session st).
Proof.
  revert st. induction inputs as [|[rnd text] inputs IH]; intros st; [done|].
  cbn [submit_all]. rewrite IH. unfold processed. cbn [List.filter snd].
  unfold process_chat_message. cbn [message].
  destruct (strip text) as [|c user_message] eqn:Hs.
  - reflexivity.
  - rewrite bool_decide_eq_false_2 by done. cbn [negb length].
    destruct (FallbackMode.process_chat_message _ _ _ _ _) as [[response updated] h'].
    cbn [active_session]. by rewrite Nat.iter_succ_r.
Qed.

Lemma apply_operation_within_limit (s : Session) (op : operation) :
  match op with GenerateImage limit => (1 <= limit)%Z | SubmitDescription => True end ->
  within_limit s -> within_limit (apply_operation s op).
Proof.
  intros Hop (count & limit & Hc & Hl & Hinv). destruct op as [limit'|]; simpl.
  - exists 0%Z, limit'. repeat split; lia.
  - destruct s as [c l]. simpl in Hc, Hl. subst c l.
    rewrite record_attempt_within by lia.
    exists (Z.min (count + 1) limit), limit. repeat split; lia.
Qed.

(** C5.  Attempt saturation.  From [attempt_count = 0] and a limit [L >= 1],
    [N] recorded attempts leave [attempt_count = min(N, L)]; the same holds
    for [N] processed descriptions submitted in fallback mode.  The
    increment is a total function on unbounded integers, it moves the count
    by 0 or 1 and keeps [0 <= attempt_count <= attempt_limit], and so does
    every sequence of image generations (with limits of at least 1) and
    processed descriptions. *)
Theorem attempt_count_saturates :
  (forall (n : nat) (limit : Z),
      (1 <= limit)%Z ->
      Nat.iter n record_attempt (new_session limit)
      = mkSession (Some (Z.min (Z.of_nat n) limit)) (Some limit))
  /\
  (forall (inputs : list (nat * str)) (st : state) (limit : Z),
      (1 <= limit)%Z -> active_session st = new_session limit ->
      active_session (submit_all inputs st)
      = mkSession (Some (Z.min (Z.of_nat (processed inputs)) limit)) (Some limit))
  /\
  (forall (s : Session) (count limit : Z),
      attempt_count s = Some count -> attempt_limit s = Some limit ->
      (0 <= count <= limit)%Z ->
      exists count',
        record_attempt s = mkSession (Some count') (Some limit) /\
        (count <= count' <= count + 1)%Z /\ (0 <= count' <= limit)%Z)
  /\
  (forall (ops : list operation) (s : Session),
      Forall (fun op => match op with
                        | GenerateImage limit => (1 <= limit)%Z
                        | SubmitDescription => True
                        end) ops ->
      within_limit s -> within_limit (fold_left apply_operation ops s)).
Proof.
  split; [|split; [|split]]; cycle 3.
  { intros ops. induction ops as [|op ops IH]; intros s Hops Hs; [done|].
    apply Forall_cons in Hops as [Hop Hops]. simpl.
    by apply IH, apply_operation_within_limit. }
  - intros n limit Hl. apply iter_record_attempt. lia.
  - intros inputs st limit Hl Hs. rewrite submit_all_session, Hs.
    apply iter_record_attempt. lia.
  - intros [c l] count limit Hc Hlim Hinv. simpl in Hc, Hlim. subst c l.
    exists (Z.min (count + 1) limit). split; [apply record_attempt_within; lia | lia].
Qed.

(** C5 with a limit of 3: five recorded attempts, four descriptions of
    which one is blank, and one increment at the limit. *)
Lemma attempt_count_saturates_witness :
  Nat.iter 5 record_attempt (new_session 3) = mkSession (Some 3%Z) (Some 3%Z)
  /\ active_session
       (submit_all [(0, lit "a dog"); (1, lit "   "); (2, lit "red"); (3, lit "big")]
          (mkState {[ 0 := mkItem (lit "Animal type") false 0 ]} [0] (new_session 3) [] []))
     = mkSession (Some 3%Z) (Some 3%Z)
  /\ (exists count',
       record_attempt (mkSession (Some 3%Z) (Some 3%Z)) = mkSession (Some count') (Some 3%Z)
       /\ (3 <= count' <= 3 + 1)%Z /\ (0 <= count' <= 3)%Z)
  /\ within_limit
       (fold_left apply_operation
          [SubmitDescription; GenerateImage 2; SubmitDescription; SubmitDescription;
           SubmitDescription] (mkSession (Some 0%Z) (Some 3%Z))).
Proof.
  split; [|split; [|split]]; cycle 3.
  { apply (proj2 (proj2 (proj2 attempt_count_saturates))).
    - repeat constructor. lia.
    - exists 0%Z, 3%Z. repeat split; lia. }
  - exact (proj1 attempt_count_saturates 5 3%Z ltac:(lia)).
  - exact (proj1 (proj2 attempt_count_saturates)
             [(0, lit "a dog"); (1, lit "   "); (2, lit "red"); (3, lit "big")]
             (mkState {[ 0 := mkItem (lit "Animal type") false 0 ]} [0] (new_session 3) [] [])
             3%Z ltac:(lia) eq_refl).
  - exact (proj1 (proj2 (proj2 attempt_count_saturates)) (mkSession (Some 3%Z) (Some 3%Z))
             3%Z 3%Z eq_refl eq_refl ltac:(lia)).
Defined.

(** C6.  The attempts panel reports that the maximum is reached exactly
    when [attempt_count >= attempt_limit] and not every item of the
    checklist is identified: with limit 3, count 3 and a partially
    identified checklist it is reported, and with every item identified it
    is not, whatever the count. *)
Theorem maximum_attempts_reported_iff :
  (forall (count limit : Z) (checklist : list Item),
      attempts_warning (mkSession (Some count) (Some limit)) checklist
      = Some maximum_attempts_text
      <-> (limit <= count)%Z /\ ~ Forall (fun item => identified item = true) checklist)
  /\
  (forall (s : Session) (checklist : list Item),
      attempts_warning s checklist = None \/
      attempts_warning s checklist = Some maximum_attempts_text)
  /\
  attempts_warning (mkSession (Some 3%Z) (Some 3%Z))
    [mkItem (lit "Animal type") true 0; mkItem (lit "Animal coloring") false 1]
  = Some maximum_attempts_text
  /\
  (forall (s : Session) (checklist : list Item),
      Forall (fun item => identified item = true) checklist ->
      attempts_warning s checklist = None).
Proof.
  assert (Hall : forall checklist : list Item,
             forallb identified checklist = true
             <-> Forall (fun item => identified item = true) checklist).
  { intros checklist. rewrite forallb_forall, Forall_forall.
    split; intros H x Hx; apply H; by apply list_elem_of_In. }
  split; [|split; [|split]].
  - intros count limit checklist. unfold attempts_warning. simpl.
    rewrite <- Hall. destruct (Z.leb_spec limit count);
      destruct (forallb identified checklist); simpl; split;
      try done; try (intros [? ?]; done || lia).
  - intros s checklist. unfold attempts_warning.
    destruct (_ <=? _)%Z; [|by left]. destruct (negb _); [by right | by left].
  - reflexivity.
  - intros s checklist Hf. apply Hall in Hf. unfold attempts_warning. rewrite Hf.
    simpl. by destruct (_ <=? _)%Z.
Qed.

(** C6 on a fully identified checklist after five attempts of three. *)
Lemma maximum_attempts_reported_iff_witness :
  attempts_warning (mkSession (Some 5%Z) (Some 3%Z))
    [mkItem (lit "Animal type") true 0; mkItem (lit "Animal coloring") true 1]
  = None.
Proof.
  apply (proj2 (proj2 (proj2 maximum_attempts_reported_iff))).
  repeat constructor.
Defined.

End Attempts.

(** ** update_progress *)

Section Progress.

Import App.

Lemma count_identified_le (checklist : list Item) :
  count_identified checklist <= length checklist.
Proof. apply List.filter_length_le. Qed.

(** C7 as stated fails: on the empty checklist [update_progress] returns a
    fixed notice, not a progress line; no percentage, 0 or other, is
    reported. *)
Lemma update_progress_empty_has_no_percentage :
  update_progress [] = lit "No active session or no details to identify."
  /\ update_progress [] <> progress_line 0 0 (percentage_of 0 0)
  /\ ~ exists identified_items total_items percentage,
         update_progress [] = progress_line identified_items total_items percentage.
Proof.
  split; [reflexivity | split].
  - vm_compute. discriminate.
  - intros [i [t [p H]]]. unfold progress_line in H. discriminate H.
Qed.

(** C7, amended.  [update_progress] is a function of the checklist.  On a
    checklist that is not empty it reports the number of identified items,
    the number of items and the percentage
    [identified_items / total_items * 100] printed with one decimal, so
    four items of which one is identified give 1, 4 and 25.0; the number
    identified never exceeds the total.  On the empty checklist it returns
    the notice 'No active session or no details to identify.' and computes
    no percentage. *)
Theorem update_progress_reports :
  update_progress [] = lit "No active session or no details to identify."
  /\
  (forall checklist : list Item,
      checklist <> [] ->
      update_progress checklist
      = progress_line (count_identified checklist) (length checklist)
          (PrimFloat.mul
             (PrimFloat.div (float_of_nat (count_identified checklist))
                            (float_of_nat (length checklist)))
             (float_of_nat 100)))
  /\
  (forall checklist : list Item, count_identified checklist <= length checklist)
  /\
  (forall checklist : list Item,
      length checklist = 4 -> count_identified checklist = 1 ->
      update_progress checklist = lit "Progress: 1/4 details (25.0%)").
Proof.
  split; [reflexivity | split; [|split]].
  - intros [|item checklist] Hne; [done|]. reflexivity.
  - apply count_identified_le.
  - intros [|item checklist] Hlen Hcount; [discriminate Hlen|].
    unfold update_progress. rewrite Hlen, Hcount. vm_compute. reflexivity.
Qed.

(** C7, amended, on a checklist of four items with the second identified. *)
Lemma update_progress_reports_witness :
  let checklist :=
    [mkItem (lit "Object in image") false 0; mkItem (lit "Color") true 1;
     mkItem (lit "Shape") false 2; mkItem (lit "Background") false 3] in
  update_progress checklist = lit "Progress: 1/4 details (25.0%)"
  /\ update_progress checklist
     = progress_line (count_identified checklist) (length checklist)
         (PrimFloat.mul
            (PrimFloat.div (float_of_nat (count_identified checklist))
                           (float_of_nat (length checklist)))
            (float_of_nat 100)).
Proof.
  split.
  - apply (proj2 (proj2 (proj2 update_progress_reports))); reflexivity.
  - apply (proj1 (proj2 update_progress_reports)). discriminate.
Defined.

End Progress.

(** ** generate_placeholder_checklist *)

Section GenerateChecklist.

Import FallbackMode.

(** One draw of [random.sample]: the pool is the picked element together
    with the pool of the next draw. *)
Lemma sample_step_perm (pool : list str) (j : nat) :
  j < length pool ->
  pool ≡ₚ nth j pool []
          :: take (length pool - 1) (<[j := nth (length pool - 1) pool []]> pool).
Proof.
  intros Hj. destruct pool as [|c pool'] eqn:Hp using rev_ind; [simpl in Hj; lia|].
  clear IHpool'. rename c into z, pool' into init.
  rewrite length_app in *. simpl in *.
  replace (length init + 1 - 1) with (length init) by lia.
  rewrite nth_middle.
  destruct (decide (j = length init)) as [->|Hne].
  - rewrite nth_middle, list_insert_id by (by apply list_lookup_middle).
    rewrite take_app_length. symmetry. apply Permutation_cons_append.
  - assert (Hlt : j < length init) by lia.
    rewrite insert_app_l by lia.
    rewrite take_app_length' by (by rewrite length_insert).
    rewrite app_nth1 by lia.
    destruct (lookup_lt_is_Some_2 init j Hlt) as [x Hx].
    rewrite (nth_lookup_Some _ _ _ _ Hx), insert_take_drop by lia.
    rewrite <- (take_drop_middle init j x Hx) at 1.
    rewrite <- app_assoc. simpl.
    rewrite <- (Permutation_middle (take j init) (drop (S j) init ++ [z]) x).
    constructor. apply Permutation_app_head.
    symmetry. apply Permutation_cons_append.
Qed.

(** [random.sample] returns [k] elements taken from distinct positions of
    the population. *)
Lemma sample_go_spec (rng : nat -> nat) (k : nat) :
  forall (pos : nat) (pool : list str),
    k <= length pool ->
    length (sample_go rng pos pool k) = k /\
    exists rest, pool ≡ₚ sample_go rng pos pool k ++ rest.
Proof.
  induction k as [|k IH]; intros pos pool Hk.
  - split; [done | by exists pool].
  - cbn [sample_go].
    set (j := rng pos mod length pool).
    assert (Hj : j < length pool) by (apply Nat.mod_upper_bound; lia).
    pose proof (sample_step_perm pool j Hj) as Hperm.
    set (pool' := take (length pool - 1) (<[j := nth (length pool - 1) pool []]> pool)) in *.
    assert (Hlen : k <= length pool').
    { unfold pool'. rewrite length_take, length_insert. lia. }
    destruct (IH (S pos) pool' Hlen) as [Hl [rest Hrest]]. split.
    + simpl. by rewrite Hl.
    + exists rest. by rewrite Hperm, Hrest at 1.
Qed.

(** The pool of a topic is one of the four buckets or empty. *)
Lemma topic_details_cases (topic : str) :
  topic_details topic = [] \/ topic_details topic = animal_details \/
  topic_details topic = people_details \/ topic_details topic = nature_details \/
  topic_details topic = object_details.
Proof.
  unfold topic_details.
  repeat match goal with
         | |- context [if ?b then _ else _] => destruct b
         end; tauto.
Qed.

Lemma all_details_NoDup (topic : str) : NoDup (topic_details topic ++ generic_details).
Proof.
  destruct (topic_details_cases topic) as [-> | [-> | [-> | [-> | ->]]]];
    apply (bool_decide_unpack _); vm_compute; exact I.
Qed.

Lemma all_details_length (topic : str) :
  7 <= length (topic_details topic ++ generic_details).
Proof.
  destruct (topic_details_cases topic) as [-> | [-> | [-> | [-> | ->]]]]; simpl; lia.
Qed.

(** C9.  Whatever the topic and the random draws, the generated checklist
    has between 5 and 8 items, their detail texts are pairwise distinct and
    come from the bucket of the topic (the animal, people, nature or object
    details, or none) followed by the generic details, the ids are
    0, 1, ..., n-1 in selection order, and no item is identified. *)
Theorem generate_placeholder_checklist_spec (rng : nat -> nat) (topic : str) :
  let checklist := generate_placeholder_checklist rng topic in
  5 <= length checklist <= 8
  /\ NoDup (map detail checklist)
  /\ (forall item, item ∈ checklist ->
                   detail item ∈ topic_details topic ++ generic_details)
  /\ (topic_details topic = [] \/ topic_details topic = animal_details \/
      topic_details topic = people_details \/ topic_details topic = nature_details \/
      topic_details topic = object_details)
  /\ map id checklist = seq 0 (length checklist)
  /\ Forall (fun item => identified item = false) checklist
  /\ map detail checklist
     = random_sample rng 1 (topic_details topic ++ generic_details) (length checklist).
Proof.
  intros checklist. unfold generate_placeholder_checklist in checklist.
  set (all_details := topic_details topic ++ generic_details) in *.
  set (num_details := Nat.min (length all_details) (randint rng 0 5 8)) in *.
  set (selected := random_sample rng 1 all_details num_details) in *.
  assert (Hnum : 5 <= num_details <= 8 /\ num_details <= length all_details).
  { pose proof (all_details_length topic) as Hl. fold all_details in Hl.
    unfold num_details, randint.
    pose proof (Nat.mod_upper_bound (rng 0) (8 - 5 + 1) ltac:(lia)). lia. }
  destruct (sample_go_spec rng num_details 1 all_details (proj2 Hnum))
    as [Hlen [rest Hperm]].
  fold (random_sample rng 1 all_details num_details) in Hlen, Hperm.
  fold selected in Hlen, Hperm.
  assert (Hdetail : map detail checklist = selected).
  { unfold checklist. apply list_eq. intros i.
    change (map detail ?l) with (detail <$> l).
    rewrite list_lookup_fmap, list_lookup_imap. by destruct (selected !! i). }
  assert (Hclen : length checklist = num_details).
  { unfold checklist. by rewrite length_imap. }
  pose proof (all_details_NoDup topic) as Hnd. fold all_details in Hnd.
  rewrite Hperm in Hnd. apply NoDup_app in Hnd as [Hnd _].
  split; [lia|]. split; [by rewrite Hdetail|]. split; [|split; [|split; [|split]]].
  - intros item Hin. rewrite Hperm. apply elem_of_app. left.
    rewrite <- Hdetail. apply list_elem_of_fmap. by exists item.
  - apply topic_details_cases.
  - unfold checklist. rewrite length_imap. apply list_eq. intros i.
    change (map id ?l) with (id <$> l).
    rewrite list_lookup_fmap, list_lookup_imap.
    destruct (selected !! i) as [d|] eqn:Hi; simpl.
    + apply lookup_lt_Some in Hi. by rewrite lookup_seq_lt.
    + apply lookup_ge_None in Hi. symmetry. apply lookup_ge_None.
      by rewrite length_seq.
  - apply Forall_forall. intros item Hin. unfold checklist in Hin.
    apply list_elem_of_lookup in Hin as [i Hi].
    rewrite list_lookup_imap in Hi. destruct (selected !! i); simplify_eq/=. done.
  - by rewrite Hdetail, Hclen.
Qed.

End GenerateChecklist.

(** ** VisoLearnClient.process_data_url *)

Section ProcessDataUrlFacts.

Import VisoLearnClient.

Variables (bytes image exn : Type).
Variable b64decode : str -> outcome exn bytes.
Variable image_open : bytes -> outcome exn image.
Variable index_error : exn.

Let process := process_data_url bytes image exn b64decode image_open index_error.

(** C10.  [process_data_url] never raises.  It returns [None] for [None],
    for the empty string and for every string that does not start with
    'data:image'; it returns the opened image when the text after the first
    comma decodes and opens; and it returns [None] when the string has no
    comma, when the payload does not decode, or when the decoded bytes do
    not open as an image. *)
Theorem process_data_url_never_raises :
  (forall data_url, exists v, process data_url = Returns v)
  /\ process None = Returns None
  /\ process (Some []) = Returns None
  /\ (forall url, startswith (lit "data:image") url = false ->
                  process (Some url) = Returns None)
  /\ (forall url base64_data image_data img,
         startswith (lit "data:image") url = true ->
         split_on ","%char url !! 1 = Some base64_data ->
         b64decode base64_data = Returns image_data ->
         image_open image_data = Returns img ->
         process (Some url) = Returns (Some img))
  /\ (forall url,
         startswith (lit "data:image") url = true ->
         split_on ","%char url !! 1 = None ->
         process (Some url) = Returns None)
  /\ (forall url base64_data e,
         startswith (lit "data:image") url = true ->
         split_on ","%char url !! 1 = Some base64_data ->
         b64decode base64_data = Raises e ->
         process (Some url) = Returns None)
  /\ (forall url base64_data image_data e,
         startswith (lit "data:image") url = true ->
         split_on ","%char url !! 1 = Some base64_data ->
         b64decode base64_data = Returns image_data ->
         image_open image_data = Raises e ->
         process (Some url) = Returns None).
Proof.
  unfold process, process_data_url.
  split; [|split; [|split; [|split; [|split; [|split; [|split]]]]]].
  - intros data_url. destruct (try_body _ _ _ _ _ _ data_url) as [v|e]; eauto.
  - reflexivity.
  - reflexivity.
  - intros [|c url] Hs; [done|]. unfold try_body. by rewrite Hs.
  - intros [|c url] base64_data image_data img Hs Hsplit Hdec Hopen; [done|].
    unfold try_body. by rewrite Hs, Hsplit, Hdec, Hopen.
  - intros [|c url] Hs Hsplit; [done|]. unfold try_body. by rewrite Hs, Hsplit.
  - intros [|c url] base64_data e Hs Hsplit Hdec; [done|].
    unfold try_body. by rewrite Hs, Hsplit, Hdec.
  - intros [|c url] base64_data image_data e Hs Hsplit Hdec Hopen; [done|].
    unfold try_body. by rewrite Hs, Hsplit, Hdec, Hopen.
Qed.

End ProcessDataUrlFacts.

(** C10 with a decoder that accepts 'AAAA' and 'BBBB' only and an opener
    that accepts 'AAAA' only: a plain URL, a well-formed data URI, a data URI
    without a comma, one whose payload does not decode and one whose bytes
    do not open. *)
Lemma process_data_url_never_raises_witness :
  let b64decode (s : str) : VisoLearnClient.outcome unit str :=
    if bool_decide (s = lit "AAAA") || bool_decide (s = lit "BBBB")
    then VisoLearnClient.Returns s else VisoLearnClient.Raises () in
  let image_open (b : str) : VisoLearnClient.outcome unit str :=
    if bool_decide (b = lit "AAAA")
    then VisoLearnClient.Returns b else VisoLearnClient.Raises () in
  let process := VisoLearnClient.process_data_url str str unit b64decode image_open () in
  process (Some (lit "https://example.org/picture.png")) = VisoLearnClient.Returns None
  /\ process (Some (lit "data:image/png;base64,AAAA"))
     = VisoLearnClient.Returns (Some (lit "AAAA"))
  /\ process (Some (lit "data:image/png;base64")) = VisoLearnClient.Returns None
  /\ process (Some (lit "data:image/png;base64,@@")) = VisoLearnClient.Returns None
  /\ process (Some (lit "data:image/png;base64,BBBB")) = VisoLearnClient.Returns None.
Proof.
  intros b64decode image_open process.
  pose proof (process_data_url_never_raises str str unit b64decode image_open ())
    as (_ & _ & _ & Hplain & Hgood & Hcomma & Hdecode & Hopen).
  split; [|split; [|split; [|split]]].
  - exact (Hplain (lit "https://example.org/picture.png") eq_refl).
  - exact (Hgood (lit "data:image/png;base64,AAAA") (lit "AAAA") (lit "AAAA") (lit "AAAA")
             eq_refl eq_refl eq_refl eq_refl).
  - exact (Hcomma (lit "data:image/png;base64") eq_refl eq_refl).
  - exact (Hdecode (lit "data:image/png;base64,@@") (lit "@@") () eq_refl eq_refl eq_refl).
  - exact (Hopen (lit "data:image/png;base64,BBBB") (lit "BBBB") (lit "BBBB") ()
             eq_refl eq_refl eq_refl eq_refl).
Defined.

(** ** The checklist markup and its decoder *)

Section Markup.

Import FallbackMode App.

Lemma clashes_startswith (l s rest : str) :
  clashes l s = true -> startswith l (s ++ rest) = false.
Proof.
  revert s. induction l as [|a l IH]; intros [|b s] Hc; try discriminate Hc.
  simpl in *. destruct (Ascii.eqb a b); [by apply IH | done].
Qed.

(** A stretch of text in which the opening literal of a pattern never
    starts contributes no match. *)
Lemma findall_go_never_starts (l : str) (p : list re_elem) (pre rest : str) :
  never_starts l pre = true ->
  findall_go (Lit l :: p) 0 (pre ++ rest) = findall_go (Lit l :: p) 0 rest.
Proof.
  induction pre as [|c pre IH]; intros Hn; [done|].
  simpl in Hn. apply andb_true_iff in Hn as [Hc Hn].
  change ((c :: pre) ++ rest) with (c :: pre ++ rest).
  cbn [findall_go match_here].
  change (c :: pre ++ rest) with ((c :: pre) ++ rest).
  rewrite (clashes_startswith _ _ _ Hc). by apply IH.
Qed.

(** The characters of a match are passed over. *)
Lemma findall_go_skip (p : list re_elem) (pre rest : str) :
  findall_go p (length pre) (pre ++ rest) = findall_go p 0 rest.
Proof. induction pre as [|c pre IH]; [by destruct rest | exact IH]. Qed.

Lemma findall_go_match (p : list re_elem) (m rest : str) (groups : list str) :
  m <> [] ->
  match_here p (m ++ rest) [] = Some (groups, rest) ->
  findall_go p 0 (m ++ rest) = groups :: findall_go p 0 rest.
Proof.
  intros Hm Hmatch. destruct m as [|c m]; [done|].
  change ((c :: m) ++ rest) with (c :: m ++ rest) in *.
  cbn [findall_go]. rewrite Hmatch. f_equal.
  replace (length (c :: m ++ rest) - length rest - 1) with (length m).
  - apply findall_go_skip.
  - simpl. rewrite length_app. lia.
Qed.

Lemma span_not_app (c : ascii) (g rest : str) :
  c ∉ g -> span_not c (g ++ c :: rest) = (g, c :: rest).
Proof.
  induction g as [|a g IH]; intros Hc; simpl.
  - by rewrite Ascii.eqb_refl.
  - apply not_elem_of_cons in Hc as [Hne Hc].
    destruct (Ascii.eqb_spec a c) as [->|_]; [done|]. by rewrite IH.
Qed.

(** The pattern matches the markup of one item, whatever follows, and
    captures its class, its check mark and its text. *)
Lemma css_class_no_quote (b : bool) : css_class_of b <> [] /\ dq ∉ css_class_of b.
Proof.
  destruct b; (split; [discriminate | apply (bool_decide_unpack _); vm_compute; exact I]).
Qed.

Lemma checkmark_capturable (b : bool) : capturable (checkmark_of b).
Proof.
  destruct b; (split; [discriminate | apply (bool_decide_unpack _); vm_compute; exact I]).
Qed.

(** A capturing group reads up to the excluded character and fails on an
    empty capture. *)
Lemma match_here_GroupNot (c : ascii) (p : list re_elem) (g rest : str)
    (groups : list str) :
  g <> [] -> c ∉ g ->
  match_here (GroupNot c :: p) (g ++ c :: rest) groups
  = match_here p (c :: rest) (g :: groups).
Proof.
  intros Hne Hc. cbn [match_here]. rewrite (span_not_app c g rest Hc).
  by destruct g.
Qed.

Lemma match_here_Lit (l : str) (p : list re_elem) (rest : str) (groups : list str) :
  match_here (Lit l :: p) (l ++ rest) groups = match_here p rest groups.
Proof. cbn [match_here]. by rewrite startswith_app, drop_app_length. Qed.

Lemma match_here_Spaces (c : ascii) (p : list re_elem) (rest : str) (groups : list str) :
  isspace c = false ->
  match_here (Spaces :: p) (c :: rest) groups = match_here p (c :: rest) groups.
Proof. intros Hc. cbn [match_here skip_spaces]. by rewrite Hc. Qed.

(** Matching a pattern of the shape of [pattern] against markup of the
    shape of [html_item]. *)
Lemma match_here_shape (l1 l3 l5 l7 l9 l11 l13 : str) (c5 c9 c13 q : ascii)
    (css mark text rest : str) :
  isspace c5 = false -> isspace c9 = false -> isspace c13 = false ->
  css <> [] -> q ∉ css -> capturable mark -> capturable text ->
  match_here
    [ Lit l1; GroupNot q; Lit (q :: l3); Spaces; Lit (c5 :: l5); GroupNot "<"%char;
      Lit ("<"%char :: l7); Spaces; Lit (c9 :: l9); GroupNot "<"%char;
      Lit ("<"%char :: l11); Spaces; Lit (c13 :: l13) ]
    (l1 ++ css ++ (q :: l3) ++ (c5 :: l5) ++ mark ++ ("<"%char :: l7) ++ (c9 :: l9)
        ++ text ++ ("<"%char :: l11) ++ (c13 :: l13) ++ rest) []
  = Some ([css; mark; text], rest).
Proof.
  intros H5 H9 H13 Hcss1 Hcss2 [Hmark1 Hmark2] [Htext1 Htext2].
  rewrite match_here_Lit.
  change ((q :: l3) ++ ?s) with (q :: l3 ++ s).
  rewrite (match_here_GroupNot q _ css _ _ Hcss1 Hcss2).
  change (q :: l3 ++ ?s) with ((q :: l3) ++ s).
  rewrite match_here_Lit.
  change ((c5 :: l5) ++ ?s) with (c5 :: l5 ++ s).
  rewrite (match_here_Spaces c5 _ _ _ H5).
  change (c5 :: l5 ++ ?s) with ((c5 :: l5) ++ s).
  rewrite match_here_Lit.
  change (("<"%char :: l7) ++ ?s) with ("<"%char :: l7 ++ s).
  rewrite (match_here_GroupNot _ _ mark _ _ Hmark1 Hmark2).
  change ("<"%char :: l7 ++ ?s) with (("<"%char :: l7) ++ s).
  rewrite match_here_Lit.
  change ((c9 :: l9) ++ ?s) with (c9 :: l9 ++ s).
  rewrite (match_here_Spaces c9 _ _ _ H9).
  change (c9 :: l9 ++ ?s) with ((c9 :: l9) ++ s).
  rewrite match_here_Lit.
  change (("<"%char :: l11) ++ ?s) with ("<"%char :: l11 ++ s).
  rewrite (match_here_GroupNot _ _ text _ _ Htext1 Htext2).
  change ("<"%char :: l11 ++ ?s) with (("<"%char :: l11) ++ s).
  rewrite match_here_Lit.
  change ((c13 :: l13) ++ ?s) with (c13 :: l13 ++ s).
  rewrite (match_here_Spaces c13 _ _ _ H13).
  change (c13 :: l13 ++ ?s) with ((c13 :: l13) ++ s).
  rewrite match_here_Lit. reflexivity.
Qed.

Lemma match_here_html_item (item : Item) (rest : str) :
  capturable (detail item) ->
  match_here pattern (html_item item ++ rest) []
  = Some ([css_class_of (identified item); checkmark_of (identified item); detail item],
          rest).
Proof.
  destruct item as [d b i]. intros Hd. simpl in Hd.
  destruct (css_class_no_quote b) as [Hcss1 Hcss2].
  pose proof (checkmark_capturable b) as Hmark.
  unfold html_item. cbn [detail identified]. rewrite <- !app_assoc.
  exact (match_here_shape
           (lit "<div class=" ++ [dq] ++ lit "checklist-item ") (lit ">")
           (lit "span class=" ++ [dq] ++ lit "checkmark" ++ [dq] ++ lit ">")
           (lit "/span>") (lit "span>") (lit "/span>") (lit "/div>")
           "<"%char "<"%char "<"%char dq
           (css_class_of b) (checkmark_of b) d rest
           eq_refl eq_refl eq_refl Hcss1 Hcss2 Hmark Hd).
Qed.

Lemma html_item_nonempty (item : Item) : html_item item <> [].
Proof. discriminate. Qed.

Lemma findall_items (checklist : list Item) (tail : str) :
  Forall (fun item => capturable (detail item)) checklist ->
  findall_go pattern 0 (concat (map html_item checklist) ++ tail)
  = map (fun item => [css_class_of (identified item); checkmark_of (identified item);
                      detail item]) checklist
      ++ findall_go pattern 0 tail.
Proof.
  induction 1 as [|item checklist Hitem _ IH]; [done|].
  cbn [map concat]. rewrite <- app_assoc.
  rewrite (findall_go_match pattern _ _ _ (html_item_nonempty item)
             (match_here_html_item item _ Hitem)).
  by rewrite IH.
Qed.

(** What [re.findall] returns on the markup of a checklist. *)
Lemma findall_create_html_checklist (checklist : list Item) :
  Forall (fun item => capturable (detail item)) checklist ->
  findall pattern (create_html_checklist checklist)
  = map (fun item => [css_class_of (identified item); checkmark_of (identified item);
                      detail item]) checklist.
Proof.
  intros Hc. unfold findall, create_html_checklist.
  assert (Hh : never_starts (lit "<div class=" ++ [dq] ++ lit "checklist-item ")
                 html_header = true) by (vm_compute; reflexivity).
  unfold pattern at 1.
  rewrite (findall_go_never_starts _ _ _ _ Hh). fold pattern.
  rewrite (findall_items checklist _ Hc).
  replace (findall_go pattern 0 (lit "</div>")) with (@nil (list str))
    by (vm_compute; reflexivity).
  apply app_nil_r.
Qed.

(** Both class names contain the word the decoder looks for. *)
Lemma css_class_contains_identified (b : bool) :
  contains (lit "identified") (css_class_of b) = true.
Proof. destruct b; vm_compute; reflexivity. Qed.

Lemma extract_checklist_from_html_Some (html : str) :
  extract_checklist_from_html (Some html) = imap item_of_match (findall pattern html).
Proof. by destruct html. Qed.

(** C2 (the code departs from it).  Decoding the markup of a checklist
    whose texts are not empty and have no [<] gives one item per original
    item, in order, with the same text and ids 0, 1, ..., n-1, but every
    decoded item is identified: the decoder tests whether the class
    contains 'identified', and 'not-identified' does.  The single
    unidentified item 'Color' comes back identified. *)
Theorem extract_checklist_from_html_all_identified :
  (forall checklist : list Item,
      Forall (fun item => capturable (detail item)) checklist ->
      extract_checklist_from_html (Some (create_html_checklist checklist))
      = map set_identified (renumbered checklist))
  /\
  (let checklist := [mkItem (lit "Color") false 0] in
   extract_checklist_from_html (Some (create_html_checklist checklist))
   = [mkItem (lit "Color") true 0]
   /\ extract_checklist_from_html (Some (create_html_checklist checklist))
      <> renumbered checklist).
Proof.
  split.
  - intros checklist Hc.
    rewrite extract_checklist_from_html_Some, (findall_create_html_checklist _ Hc).
    unfold renumbered. apply list_eq. intros i.
    change (map ?f ?l) with (f <$> l).
    rewrite list_lookup_imap, !list_lookup_fmap, list_lookup_imap.
    destruct (checklist !! i) as [item|]; [|done]. simpl.
    unfold item_of_match, set_identified. simpl.
    by rewrite css_class_contains_identified.
  - vm_compute. split; [reflexivity | discriminate].
Qed.

(** C2 on a checklist of one identified and one unidentified item. *)
Lemma extract_checklist_from_html_all_identified_witness :
  extract_checklist_from_html
    (Some (create_html_checklist
             [mkItem (lit "Main subject") true 4; mkItem (lit "Color scheme") false 9]))
  = map set_identified
      (renumbered [mkItem (lit "Main subject") true 4; mkItem (lit "Color scheme") false 9]).
Proof.
  apply (proj1 extract_checklist_from_html_all_identified).
  repeat constructor; try discriminate;
    (apply (bool_decide_unpack _); vm_compute; exact I).
Defined.

End Markup.

(** * Further properties of the engine *)

(** ** The matcher as an operation on the store *)

Section MatcherAlgebra.

Import FallbackMode.

Lemma mark_items_idemp (message : str) (refs : list loc) (h : store) :
  mark_items message refs (mark_items message refs h) = mark_items message refs h.
Proof.
  apply map_eq. intros r. rewrite !mark_items_lookup.
  destruct (h !! r) as [item|]; simpl; [|done].
  case_decide; [by rewrite marked_idemp | done].
Qed.

Lemma marked_comm (m1 m2 : str) (item : Item) :
  marked m1 (marked m2 item) = marked m2 (marked m1 item).
Proof.
  unfold marked. destruct item as [d [] i]; simpl; [done|].
  destruct (detail_hit m1 d) eqn:H1, (detail_hit m2 d) eqn:H2; simpl;
    rewrite ?H1, ?H2; reflexivity.
Qed.

Lemma mark_items_comm (m1 m2 : str) (refs : list loc) (h : store) :
  mark_items m1 refs (mark_items m2 refs h) = mark_items m2 refs (mark_items m1 refs h).
Proof.
  apply map_eq. intros r. rewrite !mark_items_lookup.
  destruct (h !! r) as [item|]; simpl; [|done].
  case_decide; [by rewrite marked_comm | done].
Qed.

(** X1.  Idempotence.  Submitting the same utterance a second time, with
    whatever session and random draw, changes nothing: the store and the
    checklist after the second call are those after the first. *)
Theorem process_chat_message_idempotent (rnd1 rnd2 : nat) (message : str)
    (checklist : list loc) (session1 session2 : option Session) (h : store) :
  let '(_, checklist1, h1) := process_chat_message rnd1 message checklist session1 h in
  let '(_, checklist2, h2) := process_chat_message rnd2 message checklist1 session2 h1 in
  checklist2 = checklist1 /\ h2 = h1.
Proof.
  unfold process_chat_message, list_copy. split; [done | apply mark_items_idemp].
Qed.

(** X2.  The order of the utterances does not matter: two conversations
    that consist of the same utterances in different orders leave the same
    store. *)
Theorem run_chat_order_irrelevant (us us' : list utterance) (checklist : list loc)
    (h : store) :
  us ≡ₚ us' ->
  run_chat us checklist h = run_chat us' checklist h.
Proof.
  intros Hperm. revert h.
  induction Hperm as [|[[rnd m] s] us us' _ IH
                      |[[rnd1 m1] s1] [[rnd2 m2] s2] us
                      |us1 us2 us3 _ IH1 _ IH2]; intros h.
  - reflexivity.
  - cbn [run_chat]. unfold process_chat_message, list_copy. apply IH.
  - cbn [run_chat]. unfold process_chat_message, list_copy.
    by rewrite mark_items_comm.
  - by rewrite IH1.
Qed.

Lemma run_chat_order_irrelevant_witness :
  let h : store := {[ 0 := mkItem (lit "Animal type") false 0;
                      1 := mkItem (lit "Color scheme") false 1 ]} in
  run_chat [(0, lit "a colour scheme", None); (1, lit "an animal", None)] [0; 1] h
  = run_chat [(1, lit "an animal", None); (0, lit "a colour scheme", None)] [0; 1] h.
Proof.
  apply run_chat_order_irrelevant. apply perm_swap.
Defined.

(** X3.  What a call never does: it creates and deletes no dict, leaves
    every dict outside the checklist as it is, and in a dict of the
    checklist changes nothing but the flag, and that only from false to
    true; the detail text and the id are kept. *)
Theorem process_chat_message_frame (rnd : nat) (message : str) (checklist : list loc)
    (active_session : option Session) (h : store) :
  let '(_, updated_checklist, h') :=
    process_chat_message rnd message checklist active_session h in
  updated_checklist = checklist
  /\ dom h' = dom h
  /\ (forall r, r ∉ checklist -> h' !! r = h !! r)
  /\ (forall r item, h !! r = Some item ->
        exists item', h' !! r = Some item'
                      /\ detail item' = detail item /\ id item' = id item
                      /\ (identified item = true -> identified item' = true)
                      /\ (identified item' = true ->
                          identified item = true \/ r ∈ checklist)).
Proof.
  unfold process_chat_message, list_copy.
  split; [done|]. split; [|split].
  - apply set_eq. intros r. rewrite !elem_of_dom, mark_items_lookup.
    by rewrite fmap_is_Some.
  - intros r Hr. rewrite mark_items_lookup, decide_False by done.
    by destruct (h !! r).
  - intros r item Hr. rewrite mark_items_lookup, Hr. simpl.
    destruct (decide (r ∈ checklist)) as [Hin|Hnin].
    + exists (marked message item). split; [done|].
      unfold marked. destruct (negb (identified item) && _) eqn:Hm; simpl;
        repeat split; auto.
    + exists item. repeat split; auto.
Qed.

Lemma count_identified_mono (l1 l2 : list Item) :
  Forall2 (fun a b => identified a = true -> identified b = true) l1 l2 ->
  App.count_identified l1 <= App.count_identified l2.
Proof.
  unfold App.count_identified. induction 1 as [|a b l1 l2 Hab _ IH]; [done|].
  simpl. destruct (identified a); [rewrite Hab by done; simpl; lia|].
  destruct (identified b); simpl; lia.
Qed.

(** X4.  Progress never goes back: the number of identified items of the
    checklist after a call is at least the number before it, and at most
    the length of the checklist. *)
Theorem process_chat_message_progress_monotone (rnd : nat) (message : str)
    (checklist : list loc) (active_session : option Session) (h : store) :
  let '(_, updated_checklist, h') :=
    process_chat_message rnd message checklist active_session h in
  App.count_identified (view h checklist)
  <= App.count_identified (view h' updated_checklist)
  <= length checklist.
Proof.
  unfold process_chat_message, list_copy. split.
  - apply count_identified_mono. unfold view.
    apply Forall2_fmap, Forall_Forall2_diag, Forall_forall. intros r _.
    rewrite !lookup_total_alt, mark_items_lookup.
    destruct (h !! r) as [item|]; simpl; [|done].
    case_decide; [|done]. rewrite marked_identified. by intros ->.
  - etransitivity; [apply List.filter_length_le|]. unfold view. by rewrite length_map.
Qed.

End MatcherAlgebra.

(** ** What an utterance can and cannot identify *)

Section MatcherReach.

Import FallbackMode.

Lemma occurs_in_length (w s : str) : occurs_in w s -> length w <= length s.
Proof. intros (pre & suf & ->). rewrite !length_app. lia. Qed.

Lemma occurs_in_trans (a b c : str) : occurs_in a b -> occurs_in b c -> occurs_in a c.
Proof.
  intros (p1 & s1 & ->) (p2 & s2 & ->). exists (p2 ++ p1), (s1 ++ s2).
  by rewrite <- !app_assoc.
Qed.

(** Every word [split] returns is a substring of the text. *)
Lemma split_go_occurs (cur s w : str) :
  w ∈ split_go cur s -> occurs_in w (rev cur ++ s).
Proof.
  revert cur. induction s as [|c s IH]; intros cur Hw.
  - destruct cur as [|a cur]; cbn [split_go] in Hw; [by apply not_elem_of_nil in Hw|].
    apply list_elem_of_singleton in Hw as ->. by exists [], [].
  - cbn [split_go] in Hw. destruct (isspace c).
    + destruct cur as [|a cur].
      * destruct (IH [] Hw) as (pre & suf & Hs). simpl in Hs.
        exists (c :: pre), suf. simpl. by rewrite Hs.
      * apply elem_of_cons in Hw as [->|Hw].
        -- by exists [], (c :: s).
        -- destruct (IH [] Hw) as (pre & suf & Hs). simpl in Hs.
           exists (rev (a :: cur) ++ c :: pre), suf. rewrite Hs.
           by rewrite <- app_assoc.
    + specialize (IH (c :: cur) Hw). simpl in IH. by rewrite <- app_assoc in IH.
Qed.

Lemma split_occurs (s w : str) : w ∈ split s -> occurs_in w s.
Proof. apply (split_go_occurs [] s w). Qed.

(** X5.  An utterance in the ASCII range that is shorter than four
    characters identifies nothing, whatever the checklist: the call leaves
    the whole store as it is. *)
Theorem short_utterance_identifies_nothing (rnd : nat) (message : str)
    (checklist : list loc) (active_session : option Session) (h : store) :
  ascii_text message -> length message < 4 ->
  (process_chat_message rnd message checklist active_session h).2 = h.
Proof.
  intros _ Hlen. unfold process_chat_message, list_copy. simpl.
  assert (Hno : forall d, detail_hit message d = false).
  { intros d. destruct (detail_hit message d) eqn:Hd; [|done].
    apply detail_hit_spec in Hd as (token & _ & Htok & Hocc).
    apply occurs_in_length in Hocc. rewrite !length_lower in Hocc. lia. }
  apply map_eq. intros r. rewrite mark_items_lookup.
  destruct (h !! r) as [item|]; simpl; [|done].
  case_decide; [|done]. unfold marked. by rewrite Hno, andb_false_r.
Qed.

Lemma short_utterance_identifies_nothing_witness :
  let h : store := {[ 0 := mkItem (lit "Animal type") false 0 ]} in
  (process_chat_message 0 (lit "an ") [0] None h).2 = h.
Proof.
  apply short_utterance_identifies_nothing; [reflexivity | simpl; lia].
Defined.

(** X6.  An item whose detail text is in the ASCII range and has no
    whitespace-separated token longer than three characters can never be
    identified, whatever is said. *)
Theorem short_words_never_identified (rnd : nat) (message : str) (checklist : list loc)
    (active_session : option Session) (h : store) (r : loc) (item : Item) :
  h !! r = Some item -> identified item = false ->
  ascii_text (detail item) ->
  (forall token, token_of token (detail item) -> length token <= 3) ->
  (process_chat_message rnd message checklist active_session h).2 !! r = Some item.
Proof.
  intros Hr Hid _ Hshort. unfold process_chat_message, list_copy. simpl.
  rewrite mark_items_lookup, Hr. simpl. f_equal. case_decide; [|done].
  unfold marked. destruct (detail_hit message (detail item)) eqn:Hd.
  - apply detail_hit_tokens in Hd as (token & Hin & Htok & _).
    specialize (Hshort token Hin). lia.
  - by rewrite andb_false_r.
Qed.

Lemma short_words_never_identified_witness :
  let item := mkItem (lit "Sky or sea") false 0 in
  let h : store := {[ 0 := item ]} in
  (process_chat_message 0 (lit "the sky or sea is blue") [0] None h).2 !! 0 = Some item.
Proof.
  apply short_words_never_identified; [reflexivity | reflexivity | reflexivity |].
  intros token Htoken. apply split_tokens, list_elem_of_In in Htoken.
  destruct Htoken as [<- | [<- | [<- | []]]]; simpl; lia.
Defined.

Lemma detail_hit_mono (m m' d : str) :
  occurs_in m m' -> detail_hit m d = true -> detail_hit m' d = true.
Proof.
  intros Hocc. rewrite !detail_hit_spec. intros (token & Hin & Htok & Ho).
  exists token. repeat split; [done | done |].
  eapply occurs_in_trans; [exact Ho | by apply occurs_in_lower].
Qed.

(** X7.  Saying more never identifies less, on utterances in the ASCII
    range: when an utterance occurs inside a longer one, every item the
    shorter utterance identifies is identified by the longer one as well. *)
Theorem longer_utterance_identifies_more (rnd rnd' : nat) (m m' : str)
    (checklist : list loc) (session session' : option Session) (h : store) (r : loc) :
  ascii_text m -> ascii_text m' -> occurs_in m m' ->
  ident (process_chat_message rnd m checklist session h).2 r = true ->
  ident (process_chat_message rnd' m' checklist session' h).2 r = true.
Proof.
  intros _ _ Hocc. unfold process_chat_message, list_copy, ident. simpl.
  rewrite !mark_items_lookup. destruct (h !! r) as [item|]; simpl; [|done].
  case_decide; [|done]. rewrite !marked_identified.
  destruct (identified item); [done|]. simpl. by apply detail_hit_mono.
Qed.

Lemma longer_utterance_identifies_more_witness :
  let h : store := {[ 0 := mkItem (lit "Animal type") false 0 ]} in
  ident (process_chat_message 0 (lit "I see an animal in the grass") [0] None h).2 0 = true.
Proof.
  apply (longer_utterance_identifies_more 0 0 (lit "animal")
           (lit "I see an animal in the grass") [0] None None _ 0).
  - reflexivity.
  - reflexivity.
  - exists (lit "I see an "), (lit " in the grass"). reflexivity.
  - reflexivity.
Defined.

(** Repeating a detail text identifies the item as soon as the text has a
    word longer than three characters. *)
Lemma detail_hit_self (d : str) :
  Exists (fun token => 3 < length token) (split d) -> detail_hit d d = true.
Proof.
  intros Hex. apply Exists_exists in Hex as (token & Hin & Htok).
  apply detail_hit_spec. exists token. repeat split; [done | done |].
  by apply occurs_in_lower, split_occurs.
Qed.

Lemma pool_details_have_long_word (topic : str) :
  Forall (fun d => Exists (fun token => 3 < length token) (split d))
         (topic_details topic ++ generic_details).
Proof.
  destruct (topic_details_cases topic) as [-> | [-> | [-> | [-> | ->]]]];
    apply (bool_decide_unpack _); vm_compute; exact I.
Qed.

Lemma generated_detail_in_pool (rng : nat -> nat) (topic : str) (item : Item) :
  item ∈ generate_placeholder_checklist rng topic ->
  detail item ∈ topic_details topic ++ generic_details /\ identified item = false.
Proof.
  intros Hin. unfold generate_placeholder_checklist in Hin.
  apply list_elem_of_lookup in Hin as [i Hi]. rewrite list_lookup_imap in Hi.
  destruct (random_sample _ _ _ _ !! i) as [d|] eqn:Hd; simplify_eq/=.
  split; [|done].
  apply list_elem_of_lookup_2 in Hd. unfold random_sample in Hd.
  set (pool := topic_details topic ++ generic_details) in *.
  set (k := Nat.min (length pool) (randint rng 0 5 8)) in *.
  destruct (sample_go_spec rng k 1 pool ltac:(lia)) as [_ [rest Hperm]].
  rewrite Hperm. apply elem_of_app. by left.
Qed.

(** X8.  Every item of a generated placeholder checklist can be identified:
    a call whose utterance contains the item's detail text, in any letter
    case, marks it. *)
Theorem generated_items_identifiable (rng : nat -> nat) (topic : str) (item : Item)
    (rnd : nat) (message : str) (checklist : list loc)
    (active_session : option Session) (h : store) (r : loc) :
  item ∈ generate_placeholder_checklist rng topic ->
  h !! r = Some item -> r ∈ checklist ->
  occurs_in (lower (detail item)) (lower message) ->
  (process_chat_message rnd message checklist active_session h).2 !! r
  = Some (set_identified item).
Proof.
  intros Hin Hr Hrc Hocc.
  destruct (generated_detail_in_pool rng topic item Hin) as [Hpool Hid].
  pose proof (pool_details_have_long_word topic) as Hlong.
  rewrite Forall_forall in Hlong. specialize (Hlong _ Hpool).
  apply Exists_exists in Hlong as (token & Htin & Htok).
  assert (Hhit : detail_hit message (detail item) = true).
  { apply detail_hit_spec. exists token. repeat split; [done | done |].
    eapply occurs_in_trans; [|exact Hocc]. by apply occurs_in_lower, split_occurs. }
  unfold process_chat_message, list_copy. simpl.
  rewrite mark_items_lookup, Hr, decide_True by done. simpl.
  unfold marked. by rewrite Hid, Hhit.
Qed.

Lemma generated_items_identifiable_witness :
  let item := mkItem (lit "Color scheme") false 1 in
  let h : store := {[ 7 := item ]} in
  (process_chat_message 0 (lit "i like the COLOR SCHEME here") [7] None h).2 !! 7
  = Some (set_identified item).
Proof.
  intros item h.
  apply (generated_items_identifiable (fun _ => 2) (lit "Unknown") item).
  - apply (list_elem_of_lookup_2 _ 1). vm_compute. reflexivity.
  - reflexivity.
  - apply list_elem_of_here.
  - exists (lit "i like the "), (lit " here"). reflexivity.
Defined.

End MatcherReach.

(** ** Responses, transcript and the attempts panel *)

Section Responses.

Import FallbackMode.

Lemma unidentified_details_nil (h : store) (refs : list loc) :
  unidentified_details h refs = [] <-> all_identified h refs = true.
Proof.
  unfold unidentified_details, all_identified.
  induction refs as [|r refs IH]; simpl; [done|].
  destruct (ident h r); simpl; [exact IH | done].
Qed.

Lemma warns_all_identified (active_session : option Session) (h : store)
    (refs : list loc) :
  all_identified h refs = true -> warns active_session h refs = false.
Proof.
  intros Hall. unfold warns. destruct active_session as [s|]; [|done].
  destruct (attempt_limit s) as [limit|]; [|done].
  destruct (limit =? 0)%Z; [done|]. by rewrite Hall, andb_false_r.
Qed.

(** The response of a call, and whether it ends with the warning. *)
Lemma process_chat_message_response (rnd : nat) (message : str) (checklist : list loc)
    (active_session : option Session) (h : store) :
  let h' := mark_items message checklist h in
  (process_chat_message rnd message checklist active_session h).1.1
  = base_response rnd h' (list_copy checklist) checklist
      ++ (if warns active_session h' checklist then last_attempt_warning else [])
  /\ endswith last_attempt_warning
       (process_chat_message rnd message checklist active_session h).1.1
     = warns active_session h' checklist.
Proof.
  intros h'. unfold process_chat_message, list_copy. fold h'. cbn [fst].
  destruct (warns active_session h' checklist).
  - split; [done | apply endswith_app].
  - rewrite app_nil_r. split; [done | apply (endswith_warning_base rnd h' checklist)].
Qed.

(** X9.  The response is the completion message exactly when every item of
    the checklist is identified after the call, and then it carries no
    warning; otherwise it is a hint question about an item that is still
    unidentified, with or without the last-attempt warning. *)
Theorem response_completion_iff (rnd : nat) (message : str) (checklist : list loc)
    (active_session : option Session) (h : store) :
  let '(response, updated_checklist, h') :=
    process_chat_message rnd message checklist active_session h in
  (response = completion <-> all_identified h' updated_checklist = true)
  /\ (all_identified h' updated_checklist = false ->
      exists hint_item,
        hint_item ∈ unidentified_details h' updated_checklist
        /\ (response = hint_question hint_item
            \/ response = hint_question hint_item ++ last_attempt_warning)).
Proof.
  pose proof (process_chat_message_response rnd message checklist active_session h)
    as [Hresp _].
  unfold process_chat_message, list_copy in *. cbn [fst] in Hresp.
  set (h' := mark_items message checklist h) in *. rewrite Hresp. clear Hresp.
  pose proof (base_response_copy rnd h' checklist) as Hbase.
  unfold list_copy in Hbase. rewrite Hbase. clear Hbase.
  destruct (unidentified_details h' checklist) as [|d ds] eqn:Hu.
  - assert (Hall : all_identified h' checklist = true)
      by by apply unidentified_details_nil.
    rewrite (warns_all_identified _ _ _ Hall), app_nil_r, Hall. by split.
  - assert (Hall : all_identified h' checklist = false).
    { destruct (all_identified h' checklist) eqn:Ha; [|done].
      apply unidentified_details_nil in Ha. congruence. }
    rewrite Hall. split.
    + split; [|done]. unfold hint_question, completion. discriminate.
    + intros _. exists (random_choice rnd (d :: ds)). split.
      * unfold random_choice. apply list_elem_of_In, nth_In.
        apply Nat.mod_upper_bound. simpl. lia.
      * destruct (warns active_session h' checklist);
          [by right | left; by rewrite app_nil_r].
Qed.

Lemma response_completion_iff_witness :
  let h : store := {[ 0 := mkItem (lit "Animal type") false 0 ]} in
  let '(response, updated_checklist, h') :=
    process_chat_message 0 (lit "I see a big red dog") [0] None h in
  exists hint_item,
    hint_item ∈ unidentified_details h' updated_checklist
    /\ (response = hint_question hint_item
        \/ response = hint_question hint_item ++ last_attempt_warning).
Proof.
  exact (proj2 (response_completion_iff 0 (lit "I see a big red dog") [0] None
                  {[ 0 := mkItem (lit "Animal type") false 0 ]}) eq_refl).
Defined.

End Responses.


(** ** The fallback branch of the application *)

Section FallbackBranch.

Import App.

(** The marking of a list of dicts read off the store agrees with the
    flags read through the references. *)
Lemma forallb_identified_view (h : store) (refs : list loc) :
  forallb identified (view h refs) = FallbackMode.all_identified h refs.
Proof.
  unfold view, FallbackMode.all_identified. induction refs as [|r refs IH]; [done|].
  simpl. rewrite IH. f_equal. unfold ident. rewrite lookup_total_alt.
  by destruct (h !! r).
Qed.

(** X10.  The transcript is append-only and alternates between the child
    and the teacher: submitting descriptions appends, for every description
    that is not blank and in order, the stripped text of the child followed
    by one answer of the teacher, and nothing for a blank description. *)
Theorem submit_all_transcript (inputs : list (nat * str)) (st : state) :
  exists added,
    conversation_history (submit_all inputs st) = conversation_history st ++ added
    /\ map fst added = concat (replicate (processed inputs) [Child; Teacher])
    /\ AppUI.child_texts added = AppUI.stripped_descriptions inputs
    /\ length added = 2 * processed inputs.
Proof.
  revert st. induction inputs as [|[rnd text] inputs IH]; intros st.
  - exists []. by rewrite app_nil_r.
  - cbn [submit_all]. unfold processed, AppUI.stripped_descriptions.
    cbn [List.filter map snd]. unfold process_chat_message.
    cbn [message active_session conversation_history heap checklist].
    destruct (strip text) as [|c user_message] eqn:Hs.
    + destruct (IH (mkState (heap st) (checklist st) (active_session st)
                      (conversation_history st) text)) as (added & H1 & H2 & H3 & H4).
      exists added. by repeat split.
    + rewrite bool_decide_eq_false_2 by done. cbn [negb length].
      destruct (FallbackMode.process_chat_message _ _ _ _ _)
        as [[response updated] h'].
      destruct (IH (mkState h' updated (record_attempt (active_session st))
                      (conversation_history st
                         ++ [(Child, c :: user_message); (Teacher, response)]) []))
        as (added & H1 & H2 & H3 & H4).
      exists ((Child, c :: user_message) :: (Teacher, response) :: added).
      cbn [conversation_history] in H1.
      split; [etransitivity; [exact H1 | by rewrite <- app_assoc]|].
      repeat split.
      * cbn [map fst replicate concat app]. by rewrite H2.
      * unfold AppUI.child_texts in *. cbn [omap list_omap fst snd]. by rewrite H3.
      * cbn [length]. rewrite H4. unfold processed. lia.
Qed.

(** X11.  The last-attempt warning announces the panel: for a session
    within its limit, the answer to a processed description ends with the
    last-attempt warning exactly when, after that description, the attempts
    panel reports that the maximum is reached. *)
Theorem last_attempt_warning_announces_panel (rnd : nat) (st : state) (count limit : Z) :
  active_session st = mkSession (Some count) (Some limit) ->
  (0 <= count <= limit)%Z -> (1 <= limit)%Z -> strip (message st) <> [] ->
  let st' := process_chat_message rnd st in
  exists response,
    last (conversation_history st') = Some (Teacher, response)
    /\ (endswith FallbackMode.last_attempt_warning response = true
        <-> attempts_warning (active_session st') (view (heap st') (checklist st'))
            = Some maximum_attempts_text).
Proof.
  intros Hs Hc Hl Hm. unfold process_chat_message.
  destruct (strip (message st)) as [|c user_message] eqn:Hstrip; [done|].
  pose proof (process_chat_message_response rnd (c :: user_message) (checklist st)
                (Some (active_session st)) (heap st)) as [_ Hends].
  destruct (FallbackMode.process_chat_message rnd (c :: user_message) (checklist st)
              (Some (active_session st)) (heap st)) as [[response updated] h'] eqn:Hp.
  assert (Hupd : updated = checklist st /\ h' = FallbackMode.mark_items (c :: user_message)
                                                  (checklist st) (heap st)).
  { unfold FallbackMode.process_chat_message, FallbackMode.list_copy in Hp.
    by injection Hp as _ <- <-. }
  destruct Hupd as [-> Hh']. cbn [fst] in Hends. rewrite <- Hh' in Hends.
  exists response. cbn [conversation_history active_session heap checklist].
  split; [by rewrite last_app|].
  rewrite Hends, Hs, record_attempt_within by lia.
  unfold attempts_warning, FallbackMode.warns. cbn [attempt_count attempt_limit default].
  rewrite forallb_identified_view.
  destruct (Z.eqb_spec limit 0) as [|_]; [lia|].
  destruct (FallbackMode.all_identified h' (checklist st)); simpl.
  - rewrite andb_false_r. split; [done|]. by destruct (_ <=? _)%Z.
  - rewrite andb_true_r.
    destruct (Z.leb_spec limit (count + 1)), (Z.leb_spec limit (Z.min (count + 1) limit));
      try lia; by split.
Qed.

Lemma last_attempt_warning_announces_panel_witness :
  let st := mkState {[ 0 := mkItem (lit "Animal type") false 0 ]} [0]
              (mkSession (Some 2%Z) (Some 3%Z)) [] (lit " a big red dog ") in
  let st' := process_chat_message 0 st in
  exists response,
    last (conversation_history st') = Some (Teacher, response)
    /\ (endswith FallbackMode.last_attempt_warning response = true
        <-> attempts_warning (active_session st') (view (heap st') (checklist st'))
            = Some maximum_attempts_text).
Proof.
  apply (last_attempt_warning_announces_panel 0 _ 2%Z 3%Z);
    [reflexivity | lia | lia | discriminate].
Defined.

Lemma str_of_Z_nat (n : nat) : AppUI.str_of_Z (Z.of_nat n) = of_nat n.
Proof.
  unfold AppUI.str_of_Z. destruct (Z.ltb_spec (Z.of_nat n) 0); [lia|].
  by rewrite Nat2Z.id.
Qed.

(** X12.  After the descriptions submitted since an image was generated
    with a limit of [L >= 1], the attempts panel reads 'Attempts: k/L'
    where [k] is the smaller of [L] and the number of descriptions that
    were not blank. *)
Theorem attempts_line_after_descriptions (inputs : list (nat * str)) (st : state)
    (limit : nat) :
  1 <= limit -> active_session st = new_session (Z.of_nat limit) ->
  AppUI.attempts_line (active_session (submit_all inputs st))
  = lit "Attempts: " ++ of_nat (Nat.min (processed inputs) limit) ++ lit "/"
      ++ of_nat limit.
Proof.
  intros Hl Hs. rewrite submit_all_session, Hs, iter_record_attempt by lia.
  unfold AppUI.attempts_line. cbn [attempt_count attempt_limit default from_option].
  unfold Datatypes.id. rewrite Z.min_l by lia. rewrite <- Nat2Z.inj_min, !str_of_Z_nat. reflexivity.
Qed.

Lemma attempts_line_after_descriptions_witness :
  AppUI.attempts_line
    (active_session
       (submit_all [(0, lit "a dog"); (1, lit "   "); (2, lit "red"); (3, lit "big");
                    (4, lit "tail")]
          (mkState {[ 0 := mkItem (lit "Animal type") false 0 ]} [0]
             (new_session (Z.of_nat 3)) [] [])))
  = lit "Attempts: 3/3".
Proof.
  refine (attempts_line_after_descriptions
            [(0, lit "a dog"); (1, lit "   "); (2, lit "red"); (3, lit "big");
             (4, lit "tail")]
            (mkState {[ 0 := mkItem (lit "Animal type") false 0 ]} [0]
               (new_session (Z.of_nat 3)) [] []) 3 _ eq_refl).
  lia.
Defined.

End FallbackBranch.

(** ** Connecting to the Space *)

Section GatewayFacts.

Import VisoLearnClient Gateway.

Variable handle : Type.

Implicit Types (net : network handle) (c : handle).

Lemma wait_for_running_polls net (left i : nat) :
  exists n, n <= left
            /\ (wait_for_running handle net left i).1 = map PollRuntime (seq i n).
Proof.
  revert i. induction left as [|left IH]; intros i; [by exists 0|].
  cbn [wait_for_running].
  destruct (IH (S i)) as (n & Hn & Hpolls).
  destruct (wait_for_running handle net left (S i)) as [sent r]. simpl in Hpolls.
  destruct (poll_get net i) as [resp|e]; [|exists 1; split; [lia | done]].
  destruct (status_code resp =? 200).
  - destruct (stage resp) as [st|e]; [|exists 1; split; [lia | done]].
    case_bool_decide.
    + exists 1. split; [lia | done].
    + exists (S n). split; [lia|]. simpl. by rewrite Hpolls.
  - exists (S n). split; [lia|]. simpl. by rewrite Hpolls.
Qed.

(** A wait loop whose polls all come back without the stage RUNNING makes
    all its polls and ends normally. *)
Lemma wait_for_running_exhausted net (left i : nat) :
  (forall j, exists code st, poll_get net j = Returns (mkResponse code (Returns st))
                             /\ st <> Some (lit "RUNNING")) ->
  wait_for_running handle net left i = (map PollRuntime (seq i left), Returns ()).
Proof.
  intros Hpoll. revert i. induction left as [|left IH]; intros i; [done|].
  cbn [wait_for_running]. destruct (Hpoll i) as (code & st & -> & Hst).
  rewrite IH. cbn [status_code stage].
  rewrite bool_decide_eq_false_2 by done. by destruct (code =? 200).
Qed.

(** The body of [initialize] returns only what the Gradio constructor
    returned. *)
Lemma try_initialize_returns net c :
  (try_initialize handle net).2 = Returns c -> create_client net = Returns c.
Proof.
  assert (Hmake : forall pre, (let '(sent, r) := make_client handle net in
                               (pre ++ sent, r)).2 = Returns c ->
                              create_client net = Returns c).
  { intros pre. unfold make_client. cbn [snd].
    by destruct (create_client net) as [c'|e]. }
  unfold try_initialize.
  destruct (runtime_get net) as [resp|e]; [|discriminate].
  destruct (negb (status_code resp =? 200)); [discriminate|].
  destruct (stage resp) as [status|e]; [|discriminate].
  destruct (_ || _); [apply (Hmake [GetRuntime])|].
  destruct (bool_decide (status = Some (lit "SLEEPING"))); [|discriminate].
  destruct (wake_post net) as [wake_status|e]; [|discriminate].
  destruct (wake_status =? 200); [|discriminate].
  destruct (wait_for_running handle net 12 0) as [sent [[]|e]]; [|discriminate].
  apply (Hmake (GetRuntime :: PostWake :: sent)).
Qed.

(** X13.  How [initialize] ends.  It returns only the client the Gradio
    constructor returned.  Without a token it raises the [ValueError] about
    the missing token; with a token every failure is a [ConnectionError]
    whose message starts with the text of one of the three handlers, the
    client's own [ConnectionError]s about status codes, stages and the
    Gradio constructor included: they are caught by the last handler and
    wrapped once more. *)
Theorem initialize_outcomes (hf_token : str) net :
  match (initialize handle hf_token net).2 with
  | Returns c => hf_token <> [] /\ create_client net = Returns c
  | Raises e =>
      (hf_token = [] /\ e = mkExn ValueError missing_token_message)
      \/ (hf_token <> [] /\ exn_class_of e = ConnectionError
          /\ (startswith (lit "Network error when connecting to Hugging Face: ")
                (exn_message e) = true
              \/ startswith (lit "Invalid response from Hugging Face API: ")
                   (exn_message e) = true
              \/ startswith (lit "Failed to initialize VisoLearn client: ")
                   (exn_message e) = true))
  end.
Proof.
  unfold initialize. destruct hf_token as [|a token]; [by left|].
  pose proof (try_initialize_returns net) as Hret.
  destruct (try_initialize handle net) as [sent [c'|e]]; cbn [snd] in *.
  - split; [done | by apply Hret].
  - right. split; [done|]. unfold rewrap.
    destruct (exn_class_of e); cbn [exn_class_of exn_message];
      (split; [done|]); rewrite !startswith_app; tauto.
Qed.

(** The requests of the body of [initialize], case by case. *)
Lemma try_initialize_sent net :
  let sent := (try_initialize handle net).1 in
  sent = [GetRuntime]
  \/ (exists resp, runtime_get net = Returns resp /\ status_code resp = 200
                   /\ sent = [GetRuntime; CreateClient])
  \/ (exists resp n, runtime_get net = Returns resp /\ status_code resp = 200
                     /\ stage resp = Returns (Some (lit "SLEEPING")) /\ n <= 12
                     /\ (sent = GetRuntime :: PostWake :: polls n
                         \/ sent = GetRuntime :: PostWake :: polls n ++ [CreateClient])).
Proof.
  unfold try_initialize, make_client.
  destruct (runtime_get net) as [resp|e] eqn:Hget; [|by left].
  destruct (Nat.eqb_spec (status_code resp) 200) as [H200|Hn200]; [|by left].
  cbn [negb]. destruct (stage resp) as [status|e] eqn:Hstage; [|by left].
  destruct (_ || _); [right; left; by exists resp|].
  case_bool_decide as Hsleep; [|by left]. subst status.
  right. right.
  destruct (wake_post net) as [wake_status|e];
    [|exists resp, 0; repeat split; try done; try lia; by left].
  destruct (wake_status =? 200);
    [|exists resp, 0; repeat split; try done; try lia; by left].
  destruct (wait_for_running_polls net 12 0) as (n & Hn & Hpolls).
  destruct (wait_for_running handle net 12 0) as [sent [[]|e]]; simpl in Hpolls;
    subst sent; exists resp, n; repeat split; try done; [by right | by left].
Qed.

Lemma initialize_sent (a : ascii) (token : str) net :
  (initialize handle (a :: token) net).1 = (try_initialize handle net).1.
Proof. unfold initialize. by destruct (try_initialize handle net) as [sent [c|e]]. Qed.

(** X14.  The requests [initialize] sends.  None without a token; with a
    token the first one asks for the runtime of the Space; at most fifteen
    are sent; the Gradio client is created last, and only after the runtime
    request was answered with status 200; a wake call is sent only to a
    Space whose stage is SLEEPING. *)
Theorem initialize_requests (hf_token : str) net :
  let sent := (initialize handle hf_token net).1 in
  length sent <= 15
  /\ (hf_token = [] -> sent = [])
  /\ (hf_token <> [] -> head sent = Some GetRuntime)
  /\ (CreateClient ∈ sent ->
      last sent = Some CreateClient
      /\ exists resp, runtime_get net = Returns resp /\ status_code resp = 200)
  /\ (PostWake ∈ sent ->
      exists resp, runtime_get net = Returns resp
                   /\ stage resp = Returns (Some (lit "SLEEPING"))).
Proof.
  destruct hf_token as [|a token].
  { cbn. split; [lia|]. split; [done|]. split; [done|].
    split; intros Hin; by apply not_elem_of_nil in Hin. }
  cbv zeta. rewrite !initialize_sent.
  assert (Hpolls : forall n, (CreateClient ∉ polls n) /\ length (polls n) = n).
  { intros n. unfold polls. split; [|by rewrite length_map, length_seq].
    intros Hin. apply list_elem_of_fmap in Hin as (j & Hj & _). discriminate Hj. }
  destruct (try_initialize_sent net)
    as [-> | [(resp & Hget & H200 & ->) | (resp & n & Hget & H200 & Hst & Hn & [-> | ->])]].
  - split; [simpl; lia|]. split; [done|]. split; [done|].
    split; intros Hin; apply list_elem_of_singleton in Hin; discriminate Hin.
  - split; [simpl; lia|]. split; [done|]. split; [done|]. split.
    + intros _. split; [done | by exists resp].
    + intros Hin. apply elem_of_cons in Hin as [Hin|Hin]; [discriminate Hin|].
      apply list_elem_of_singleton in Hin. discriminate Hin.
  - destruct (Hpolls n) as [Hnc Hlen].
    split; [simpl; rewrite Hlen; lia|]. split; [done|]. split; [done|]. split.
    + intros Hin. exfalso. apply elem_of_cons in Hin as [Hin|Hin]; [discriminate Hin|].
      apply elem_of_cons in Hin as [Hin|Hin]; [discriminate Hin | done].
    + intros _. by exists resp.
  - destruct (Hpolls n) as [Hnc Hlen].
    split; [simpl; rewrite length_app, Hlen; simpl; lia|].
    split; [done|]. split; [done|]. split.
    + intros _. split; [|by exists resp].
      change (GetRuntime :: PostWake :: polls n ++ [CreateClient])
        with ((GetRuntime :: PostWake :: polls n) ++ [CreateClient]).
      apply last_snoc.
    + intros _. by exists resp.
Qed.

(** X15.  A sleeping Space that accepts the wake call is waited for with at
    most twelve polls, and the client is created whether or not a poll ever
    reports RUNNING: when all polls come back without that stage,
    [initialize] makes all twelve, then creates the client and returns
    it. *)
Theorem initialize_after_wake (hf_token : str) net c :
  hf_token <> [] ->
  runtime_get net = Returns (mkResponse 200 (Returns (Some (lit "SLEEPING")))) ->
  wake_post net = Returns 200 ->
  (forall j, exists code st, poll_get net j = Returns (mkResponse code (Returns st))
                             /\ st <> Some (lit "RUNNING")) ->
  create_client net = Returns c ->
  initialize handle hf_token net
  = (GetRuntime :: PostWake :: polls 12 ++ [CreateClient], Returns c).
Proof.
  intros Htok Hget Hwake Hpoll Hcreate. unfold initialize.
  destruct hf_token as [|a token]; [done|].
  unfold try_initialize, make_client. rewrite Hget. cbn [status_code stage].
  change (200 =? 200) with true. cbn [negb].
  rewrite !bool_decide_eq_false_2 by discriminate. cbn [orb].
  rewrite bool_decide_eq_true_2 by done. rewrite Hwake.
  change (200 =? 200) with true. cbn iota.
  rewrite (wait_for_running_exhausted net 12 0 Hpoll), Hcreate. reflexivity.
Qed.

(** The message of a failed connection, for the ways in which the body of
    [initialize] raises a [ConnectionError] of its own. *)
Lemma initialize_client_own_error (env_token : option str) net
    (conn : AppUI.connection handle) (sent : list request) (msg : str) :
  AppUI.hf_token conn <> [] ->
  try_initialize handle net = (sent, Raises (mkExn ConnectionError msg)) ->
  AppUI.initialize_client handle env_token net conn
  = (AppUI.mkConnection (AppUI.hf_token conn) (AppUI.client conn) false
       (Some (lit "Failed to initialize VisoLearn client: " ++ msg))
       (AppUI.fallback_mode conn),
     Some (AppUI.error_message (lit "Failed to initialize VisoLearn client: " ++ msg)),
     sent, false).
Proof.
  intros Htok Htry. unfold AppUI.initialize_client, new_client, initialize.
  destruct (AppUI.hf_token conn) as [|a token]; [done|]. by rewrite Htry.
Qed.

Lemma contains_app_never_starts (p pre s : str) :
  never_starts p pre = true -> contains p (pre ++ s) = contains p s.
Proof.
  induction pre as [|a pre IH]; intros Hn; [done|].
  simpl in Hn. apply andb_true_iff in Hn as [Hc Hn].
  change ((a :: pre) ++ s) with (a :: pre ++ s). cbn [contains].
  change (a :: pre ++ s) with ((a :: pre) ++ s).
  rewrite (clashes_startswith _ _ _ Hc). by apply IH.
Qed.

Lemma contains_app_l (p pre s : str) :
  contains p pre = true -> contains p (pre ++ s) = true.
Proof.
  rewrite !contains_spec. intros (a & b & ->). exists a, (b ++ s).
  by rewrite <- !app_assoc.
Qed.

(** X16.  A refused connection is explained by its status code: when the
    runtime request is answered with a three-digit status other than 200,
    [initialize_client] fails after that one request, keeps the previous
    client, and shows the permission text for 403, the token text for 401,
    the space-not-found text for 404 and the detailed error for every other
    code. *)
Theorem status_code_classification (env_token : option str) net
    (conn : AppUI.connection handle) (code : nat) (st : outcome exn (option str)) :
  AppUI.hf_token conn <> [] -> 100 <= code < 600 -> code <> 200 ->
  runtime_get net = Returns (mkResponse code st) ->
  let detailed_error :=
    lit "Failed to initialize VisoLearn client: " ++ error_msg code in
  AppUI.initialize_client handle env_token net conn
  = (AppUI.mkConnection (AppUI.hf_token conn) (AppUI.client conn) false
       (Some detailed_error) (AppUI.fallback_mode conn),
     Some (lit "⚠️ Failed to connect to VisoLearn API"
             ++ (if code =? 403
                 then lit ": You don't have permission to access this private space. Please check that your token has the correct permissions."
                 else if code =? 401
                 then lit ": Invalid or unauthorized token. Please check your Hugging Face token."
                 else if code =? 404
                 then lit ": Space not found. The VisoLearn space may have been moved or renamed."
                 else lit ": " ++ detailed_error)),
     [GetRuntime], false).
Proof.
  intros Htok Hrange Hne Hget detailed_error.
  assert (Htry : try_initialize handle net
                 = ([GetRuntime], Raises (mkExn ConnectionError (error_msg code)))).
  { unfold try_initialize. rewrite Hget. cbn [status_code].
    by destruct (Nat.eqb_spec code 200). }
  rewrite (initialize_client_own_error env_token net conn _ _ Htok Htry).
  assert (Hall : forallb
            (fun n => bool_decide
               (AppUI.error_message
                  (lit "Failed to initialize VisoLearn client: " ++ error_msg n)
                = lit "⚠️ Failed to connect to VisoLearn API"
                    ++ (if n =? 403
                        then lit ": You don't have permission to access this private space. Please check that your token has the correct permissions."
                        else if n =? 401
                        then lit ": Invalid or unauthorized token. Please check your Hugging Face token."
                        else if n =? 404
                        then lit ": Space not found. The VisoLearn space may have been moved or renamed."
                        else lit ": " ++ lit "Failed to initialize VisoLearn client: "
                               ++ error_msg n)))
            (seq 100 500) = true) by (vm_compute; reflexivity).
  rewrite forallb_forall in Hall.
  assert (Hin : In code (seq 100 500)) by (apply in_seq; lia).
  specialize (Hall code Hin). apply bool_decide_eq_true in Hall.
  unfold detailed_error. by rewrite Hall.
Qed.

(** X17.  A Space that answers but does not run.  For a stage other than
    RUNNING, RUNNING_BUILDING and SLEEPING whose name has none of 403, 401,
    404 and, in any letter case, sleeping in it, the application shows that
    the space is not running.  For a sleeping Space whose wake call is
    refused it shows the detailed error: the text about a sleeping space is
    not used. *)
Theorem stage_classification (env_token : option str) net
    (conn : AppUI.connection handle) :
  AppUI.hf_token conn <> [] ->
  (forall status,
      runtime_get net = Returns (mkResponse 200 (Returns status)) ->
      status <> Some (lit "RUNNING") -> status <> Some (lit "RUNNING_BUILDING") ->
      status <> Some (lit "SLEEPING") ->
      contains (lit "403") (stage_text status) = false ->
      contains (lit "401") (stage_text status) = false ->
      contains (lit "404") (stage_text status) = false ->
      contains (lit "sleeping") (lower (stage_text status)) = false ->
      (AppUI.initialize_client handle env_token net conn).1.1.2
      = Some (lit "⚠️ Failed to connect to VisoLearn API"
                ++ lit ": The space is not running. Please wait a moment and try again."))
  /\
  (forall wake_status,
      runtime_get net = Returns (mkResponse 200 (Returns (Some (lit "SLEEPING")))) ->
      wake_post net = Returns wake_status -> wake_status <> 200 ->
      (AppUI.initialize_client handle env_token net conn).1.1.2
      = Some (lit "⚠️ Failed to connect to VisoLearn API" ++ lit ": "
                ++ lit "Failed to initialize VisoLearn client: "
                ++ lit "Failed to wake up the space " ++ space_name)).
Proof.
  intros Htok. split.
  - intros status Hget Hr Hrb Hs H403 H401 H404 Hsl.
    assert (Htry : try_initialize handle net
                   = ([GetRuntime],
                      Raises (mkExn ConnectionError
                                (lit "Space " ++ space_name
                                   ++ lit " is not running. Current status: "
                                   ++ stage_text status)))).
    { unfold try_initialize. rewrite Hget. cbn [status_code stage].
      change (200 =? 200) with true. cbn [negb].
      by rewrite !bool_decide_eq_false_2 by done. }
    rewrite (initialize_client_own_error env_token net conn _ _ Htok Htry).
    cbn [fst snd]. f_equal. unfold AppUI.error_message. f_equal.
    set (pre := lit "Failed to initialize VisoLearn client: " ++ lit "Space " ++ space_name
                  ++ lit " is not running. Current status: ").
    replace (lit "Failed to initialize VisoLearn client: "
               ++ lit "Space " ++ space_name
               ++ lit " is not running. Current status: " ++ stage_text status)
      with (pre ++ stage_text status) by (unfold pre; by rewrite <- !app_assoc).
    rewrite !contains_app_never_starts by (vm_compute; reflexivity).
    rewrite H403, H401, H404.
    unfold lower at 1 2. rewrite map_app. fold (lower pre) (lower (stage_text status)).
    rewrite contains_app_never_starts by (vm_compute; reflexivity).
    rewrite Hsl. by rewrite contains_app_l by (vm_compute; reflexivity).
  - intros wake_status Hget Hwake Hne.
    assert (Htry : try_initialize handle net
                   = ([GetRuntime; PostWake],
                      Raises (mkExn ConnectionError
                                (lit "Failed to wake up the space " ++ space_name)))).
    { unfold try_initialize. rewrite Hget. cbn [status_code stage].
      change (200 =? 200) with true. cbn [negb].
      rewrite !bool_decide_eq_false_2 by discriminate. cbn [orb].
      rewrite bool_decide_eq_true_2 by done. rewrite Hwake.
      by destruct (Nat.eqb_spec wake_status 200). }
    rewrite (initialize_client_own_error env_token net conn _ _ Htok Htry).
    cbn [fst snd]. f_equal.
Qed.

Lemma initialize_client_consistent (env_token : option str) net
    (conn : AppUI.connection handle) :
  AppUI.consistent (AppUI.initialize_client handle env_token net conn).1.1.1.
Proof.
  unfold AppUI.initialize_client, AppUI.consistent.
  destruct (AppUI.hf_token conn); [done|].
  destruct (new_client handle _ env_token net) as [sent [new|e]]; cbn; [|done].
  intros _. split; [by eexists | done].
Qed.

(** X18.  The connection state stays consistent: whatever the user does
    with the token field, the validate button, the fallback switch and the
    fallback buttons, and however the network answers, the application is
    marked connected only while it holds a client and no connection error
    is pending. *)
Theorem connection_consistent (token : str) (actions : list (AppUI.action handle)) :
  AppUI.consistent
    (fold_left (@AppUI.act handle) actions (AppUI.initial_connection handle token)).
Proof.
  assert (Hstep : forall (conn : AppUI.connection handle) a,
             AppUI.consistent conn -> AppUI.consistent (AppUI.act conn a)).
  { intros conn [env_token net|env_token net| |tok] Hc; cbn [AppUI.act].
    - apply initialize_client_consistent.
    - unfold AppUI.toggle_fallback_mode. cbn [AppUI.fallback_mode].
      destruct (negb (AppUI.fallback_mode conn));
        [by unfold AppUI.consistent | apply initialize_client_consistent].
    - exact Hc.
    - exact Hc. }
  assert (Hrun : forall conn : AppUI.connection handle, AppUI.consistent conn ->
                              AppUI.consistent (fold_left (@AppUI.act handle) actions conn)).
  { induction actions as [|a actions IH]; intros conn Hc; [done|].
    simpl. by apply IH, Hstep. }
  apply Hrun. done.
Qed.

End GatewayFacts.

(** X14 and X15 on a sleeping Space that wakes slowly: every poll still
    reports BUILDING. *)
Lemma initialize_after_wake_witness :
  let net : Gateway.network unit :=
    Gateway.mkNetwork
      (VisoLearnClient.Returns
         (Gateway.mkResponse 200 (VisoLearnClient.Returns (Some (lit "SLEEPING")))))
      (VisoLearnClient.Returns 200)
      (fun _ => VisoLearnClient.Returns
                  (Gateway.mkResponse 200 (VisoLearnClient.Returns (Some (lit "BUILDING")))))
      (VisoLearnClient.Returns ()) in
  Gateway.initialize unit (lit "hf_token") net
  = (Gateway.GetRuntime :: Gateway.PostWake :: Gateway.polls 12 ++ [Gateway.CreateClient],
     VisoLearnClient.Returns ()).
Proof.
  intros net. apply (initialize_after_wake unit (lit "hf_token") net ());
    try reflexivity; [discriminate|].
  intros j. exists 200, (Some (lit "BUILDING")). split; [reflexivity | discriminate].
Defined.

Lemma initialize_requests_witness :
  let net : Gateway.network unit :=
    Gateway.mkNetwork
      (VisoLearnClient.Returns
         (Gateway.mkResponse 200 (VisoLearnClient.Returns (Some (lit "SLEEPING")))))
      (VisoLearnClient.Returns 200)
      (fun _ => VisoLearnClient.Returns
                  (Gateway.mkResponse 200 (VisoLearnClient.Returns (Some (lit "RUNNING")))))
      (VisoLearnClient.Returns ()) in
  let sent := (Gateway.initialize unit (lit "hf_token") net).1 in
  head sent = Some Gateway.GetRuntime
  /\ (last sent = Some Gateway.CreateClient
      /\ exists resp, Gateway.runtime_get net = VisoLearnClient.Returns resp
                      /\ Gateway.status_code resp = 200)
  /\ (exists resp, Gateway.runtime_get net = VisoLearnClient.Returns resp
                   /\ Gateway.stage resp = VisoLearnClient.Returns (Some (lit "SLEEPING")))
  /\ (Gateway.initialize unit [] net).1 = [].
Proof.
  intros net sent.
  pose proof (initialize_requests unit (lit "hf_token") net) as (_ & _ & Hhead & Hcreate & Hwake).
  pose proof (initialize_requests unit [] net) as (_ & Hnone & _).
  split; [|split; [|split]].
  - apply Hhead. discriminate.
  - apply Hcreate. apply (list_elem_of_lookup_2 _ 3). reflexivity.
  - apply Hwake. apply (list_elem_of_lookup_2 _ 1). reflexivity.
  - by apply Hnone.
Defined.

(** X16 on a token that the Space rejects. *)
Lemma status_code_classification_witness :
  let net : Gateway.network unit :=
    Gateway.mkNetwork
      (VisoLearnClient.Returns
         (Gateway.mkResponse 401 (VisoLearnClient.Returns None)))
      (VisoLearnClient.Returns 200)
      (fun _ => VisoLearnClient.Returns
                  (Gateway.mkResponse 200 (VisoLearnClient.Returns None)))
      (VisoLearnClient.Returns ()) in
  (AppUI.initialize_client unit None net (AppUI.initial_connection unit (lit "hf_bad"))).1.1.2
  = Some (lit "⚠️ Failed to connect to VisoLearn API: Invalid or unauthorized token. Please check your Hugging Face token.").
Proof.
  intros net.
  rewrite (status_code_classification unit None net
             (AppUI.initial_connection unit (lit "hf_bad")) 401
             (VisoLearnClient.Returns None));
    [reflexivity | discriminate | lia | lia | reflexivity].
Defined.

(** X17 on a paused Space and on a sleeping Space that refuses the wake
    call. *)
Lemma stage_classification_witness :
  let paused : Gateway.network unit :=
    Gateway.mkNetwork
      (VisoLearnClient.Returns
         (Gateway.mkResponse 200 (VisoLearnClient.Returns (Some (lit "PAUSED")))))
      (VisoLearnClient.Returns 200)
      (fun _ => VisoLearnClient.Returns
                  (Gateway.mkResponse 200 (VisoLearnClient.Returns None)))
      (VisoLearnClient.Returns ()) in
  let asleep : Gateway.network unit :=
    Gateway.mkNetwork
      (VisoLearnClient.Returns
         (Gateway.mkResponse 200 (VisoLearnClient.Returns (Some (lit "SLEEPING")))))
      (VisoLearnClient.Returns 503)
      (fun _ => VisoLearnClient.Returns
                  (Gateway.mkResponse 200 (VisoLearnClient.Returns None)))
      (VisoLearnClient.Returns ()) in
  let conn := AppUI.initial_connection unit (lit "hf_token") in
  (AppUI.initialize_client unit None paused conn).1.1.2
  = Some (lit "⚠️ Failed to connect to VisoLearn API: The space is not running. Please wait a moment and try again.")
  /\ (AppUI.initialize_client unit None asleep conn).1.1.2
     = Some (lit "⚠️ Failed to connect to VisoLearn API: Failed to initialize VisoLearn client: Failed to wake up the space Compumacy/VisoLearn").
Proof.
  intros paused asleep conn. split.
  - refine (proj1 (stage_classification unit None paused conn _) (Some (lit "PAUSED"))
              eq_refl _ _ _ eq_refl eq_refl eq_refl eq_refl); discriminate.
  - refine (proj2 (stage_classification unit None asleep conn _) 503 eq_refl eq_refl _);
      discriminate.
Defined.

(** ** New checklists: image generation and refresh *)

Section NewChecklists.

Import App.

(** A freshly installed checklist denotes the items it was made from. *)
Lemma view_alloc_checklist (items : list Item) :
  view (AppUI.alloc_checklist items).1 (AppUI.alloc_checklist items).2 = items.
Proof.
  unfold AppUI.alloc_checklist, view. cbn [fst snd]. apply list_eq. intros i.
  change (map ?f ?l) with (f <$> l). rewrite list_lookup_fmap.
  destruct (decide (i < length items)) as [Hlt|Hge].
  - rewrite lookup_seq_lt by done. simpl.
    destruct (lookup_lt_is_Some_2 items i Hlt) as [item Hi].
    rewrite Hi. f_equal. apply lookup_total_correct. by rewrite lookup_map_seq_0.
  - rewrite lookup_seq_ge by lia. simpl. symmetry. apply lookup_ge_None. lia.
Qed.

Lemma generate_placeholder_checklist_length (rng : nat -> nat) (topic : str) :
  5 <= length (FallbackMode.generate_placeholder_checklist rng topic) <= 8.
Proof.
  unfold FallbackMode.generate_placeholder_checklist, FallbackMode.random_sample.
  rewrite length_imap.
  set (pool := FallbackMode.topic_details topic ++ FallbackMode.generic_details).
  pose proof (all_details_length topic) as Hl. fold pool in Hl.
  set (k := Nat.min (length pool) (FallbackMode.randint rng 0 5 8)).
  assert (Hk : 5 <= k <= 8 /\ k <= length pool).
  { unfold k, FallbackMode.randint.
    pose proof (Nat.mod_upper_bound (rng 0) (8 - 5 + 1) ltac:(lia)). lia. }
  destruct (sample_go_spec rng k 1 pool (proj2 Hk)) as [Hlen _]. lia.
Qed.

Lemma extract_checklist_ids (html_content : option str) (i : nat) (item : Item) :
  extract_checklist_from_html html_content !! i = Some item -> id item = i.
Proof.
  destruct html_content as [[|c html]|]; cbn [extract_checklist_from_html];
    try (intros H; discriminate H).
  rewrite list_lookup_imap. destruct (findall pattern (c :: html) !! i); [|done].
  simpl. by intros [= <-].
Qed.

Section Refresh.

Variable handle : Type.

(** X19.  Refreshing the checklist.  In fallback mode [update_checklist]
    changes nothing at all.  Otherwise the connection state becomes what
    [initialize_client] leaves: after a failed connection [is_connected]
    is off and the error is recorded, the client and the token are kept
    and fallback mode stays off; after a successful one the application
    is connected with a client and no pending error.  The exercise
    (items, checklist, session, transcript, message box) is kept as it
    is whenever the connection or the gateway call fails.  When the
    gateway answers and an image is on screen, the new checklist is
    never empty: it is the decoded checklist, or the four placeholder
    items when nothing could be decoded; its ids are 0, 1, ..., and the
    session and the transcript are kept. *)
Theorem update_checklist_outcomes (env_token : option str)
    (net : Gateway.network handle)
    (gateway : VisoLearnClient.outcome Gateway.exn (option str)) (has_image : bool)
    (conn : AppUI.connection handle) (st : state) :
  let result := AppUI.update_checklist handle env_token net gateway has_image conn st in
  let conn' := result.1 in
  let st' := result.2 in
  let ok := (AppUI.initialize_client handle env_token net conn).2 in
  (AppUI.fallback_mode conn = true -> result = (conn, st))
  /\ (AppUI.fallback_mode conn = false ->
      conn' = (AppUI.initialize_client handle env_token net conn).1.1.1)
  /\ (AppUI.fallback_mode conn = false -> ok = false ->
      st' = st
      /\ AppUI.is_connected conn' = false
      /\ is_Some (AppUI.connection_error conn')
      /\ AppUI.client conn' = AppUI.client conn
      /\ AppUI.hf_token conn' = AppUI.hf_token conn
      /\ AppUI.fallback_mode conn' = false)
  /\ (AppUI.fallback_mode conn = false -> ok = true ->
      AppUI.is_connected conn' = true
      /\ is_Some (AppUI.client conn')
      /\ AppUI.connection_error conn' = None
      /\ AppUI.hf_token conn' = AppUI.hf_token conn
      /\ AppUI.fallback_mode conn' = false)
  /\ (ok = false -> st' = st)
  /\ (forall e, gateway = VisoLearnClient.Raises e -> st' = st)
  /\ (forall html_content,
        AppUI.fallback_mode conn = false -> ok = true ->
        gateway = VisoLearnClient.Returns html_content -> has_image = true ->
        let items := view (heap st') (checklist st') in
        items <> []
        /\ (items = extract_checklist_from_html html_content
            \/ (extract_checklist_from_html html_content = []
                /\ items = AppUI.placeholder_items))
        /\ (forall i item, items !! i = Some item -> id item = i)
        /\ active_session st' = active_session st
        /\ conversation_history st' = conversation_history st
        /\ message st' = message st).
Proof.
  unfold AppUI.update_checklist.
  destruct (AppUI.fallback_mode conn) eqn:Hfb.
  { cbn [fst snd]. repeat split; try done. }
  assert (Hconn : let r := AppUI.initialize_client handle env_token net conn in
            if r.2
            then AppUI.is_connected r.1.1.1 = true /\ is_Some (AppUI.client r.1.1.1)
                 /\ AppUI.connection_error r.1.1.1 = None
                 /\ AppUI.hf_token r.1.1.1 = AppUI.hf_token conn
                 /\ AppUI.fallback_mode r.1.1.1 = false
            else AppUI.is_connected r.1.1.1 = false
                 /\ is_Some (AppUI.connection_error r.1.1.1)
                 /\ AppUI.client r.1.1.1 = AppUI.client conn
                 /\ AppUI.hf_token r.1.1.1 = AppUI.hf_token conn
                 /\ AppUI.fallback_mode r.1.1.1 = false).
  { unfold AppUI.initialize_client. destruct (AppUI.hf_token conn) as [|c token] eqn:Htok.
    - cbn. rewrite Hfb. by repeat split.
    - destruct (Gateway.new_client handle (c :: token) env_token net) as [sent [new|e]];
        cbn; rewrite ?Hfb; by repeat split. }
  cbv zeta in Hconn.
  destruct (AppUI.initialize_client handle env_token net conn) as [[[c' shown] sent] ok].
  cbn [fst snd] in Hconn. cbn [fst snd]. destruct ok; cbn [negb].
  - split; [done|]. split.
    { intros _. destruct gateway as [html_content|e]; [|done].
      destruct (extract_checklist_from_html html_content); [by destruct has_image | done]. }
    split; [done|]. split.
    { intros _ _. destruct gateway as [html_content|e]; [|exact Hconn].
      destruct (extract_checklist_from_html html_content); [by destruct has_image | done]. }
    split; [done|]. split.
    { intros e ->. done. }
    intros html _ _ -> ->.
    destruct (extract_checklist_from_html html) as [|item items] eqn:Hex;
      cbn [snd AppUI.install_checklist heap checklist active_session conversation_history
           message];
      rewrite view_alloc_checklist.
    + repeat split; try done; [by right|].
      intros i item Hi. destruct i as [|[|[|[|i]]]]; simplify_eq/=; done.
    + repeat split; try done; [by left|].
      intros i item' Hi. apply (extract_checklist_ids html). by rewrite Hex.
  - repeat split; try done; apply Hconn.
Qed.

End Refresh.

Section Generate.

Variable image : Type.
Variable generate_placeholder_image : str -> option image.

(** X20.  A new image starts a clean exercise.  When the placeholder
    image could be drawn, [generate_image] in fallback mode returns
    [True], empties the transcript, resets the attempt count to 0 under
    the chosen limit and installs a checklist of 5 to 8 unidentified
    items, so the progress line reads 0 of n (0.0%), the attempts panel
    reads 0 of the limit and, for a limit of at least 1, shows no
    warning.  When the image could not be drawn nothing changes. *)
Theorem generate_image_starts_clean (rng : nat -> nat) (topic_focus : str)
    (limit : nat) (generated_image : option image) (st : state) :
  let '(st', new_image, returned) :=
    AppUI.generate_image image generate_placeholder_image rng topic_focus
      (Z.of_nat limit) generated_image st in
  match generate_placeholder_image (AppUI.image_text topic_focus) with
  | None => st' = st /\ new_image = generated_image /\ returned = None
  | Some result =>
      let items := view (heap st') (checklist st') in
      returned = Some true /\ new_image = Some result
      /\ conversation_history st' = []
      /\ active_session st' = new_session (Z.of_nat limit)
      /\ items = FallbackMode.generate_placeholder_checklist rng topic_focus
      /\ 5 <= length items <= 8
      /\ Forall (fun item => identified item = false) items
      /\ update_progress items
         = lit "Progress: 0/" ++ of_nat (length items) ++ lit " details (0.0%)"
      /\ AppUI.attempts_line (active_session st')
         = lit "Attempts: 0/" ++ of_nat limit
      /\ (1 <= limit -> attempts_warning (active_session st') items = None)
  end.
Proof.
  unfold AppUI.generate_image.
  destruct (generate_placeholder_image (AppUI.image_text topic_focus)) as [result|];
    [|done].
  cbn [heap checklist conversation_history active_session].
  rewrite view_alloc_checklist.
  set (items := FallbackMode.generate_placeholder_checklist rng topic_focus).
  pose proof (generate_placeholder_checklist_length rng topic_focus) as Hlen.
  fold items in Hlen.
  assert (Hun : Forall (fun item => identified item = false) items).
  { apply Forall_forall. intros item Hin.
    by apply (generated_detail_in_pool rng topic_focus item). }
  assert (Hcount : count_identified items = 0).
  { unfold count_identified. clear Hlen.
    induction Hun as [|item l Hi _ IH]; [done|]. simpl. by rewrite Hi. }
  repeat split; try done; try lia.
  - destruct items as [|item items'] eqn:Hi; [simpl in Hlen; lia|].
    unfold update_progress. rewrite Hcount.
    assert (Hcases : length (item :: items') = 5 \/ length (item :: items') = 6
                     \/ length (item :: items') = 7 \/ length (item :: items') = 8)
      by lia.
    destruct Hcases as [-> | [-> | [-> | ->]]]; vm_compute; reflexivity.
  - unfold AppUI.attempts_line, new_session.
    cbn [attempt_count attempt_limit default from_option]. unfold Datatypes.id.
    rewrite Z.min_l by lia. rewrite str_of_Z_nat. reflexivity.
  - intros Hl. unfold attempts_warning, new_session.
    cbn [attempt_count attempt_limit default from_option]. unfold Datatypes.id.
    destruct (Z.leb_spec (Z.of_nat limit) 0); [lia | done].
Qed.

End Generate.

End NewChecklists.

(** X19 on a gateway that answers with markup in which nothing can be
    decoded, on a gateway call that fails, and on a connection that fails
    for want of a token. *)
Lemma update_checklist_outcomes_witness :
  let net : Gateway.network unit :=
    Gateway.mkNetwork
      (VisoLearnClient.Returns
         (Gateway.mkResponse 200 (VisoLearnClient.Returns (Some (lit "RUNNING")))))
      (VisoLearnClient.Returns 200)
      (fun _ => VisoLearnClient.Returns
                  (Gateway.mkResponse 200 (VisoLearnClient.Returns None)))
      (VisoLearnClient.Returns ()) in
  let conn := AppUI.initial_connection unit (lit "hf_token") in
  let st := App.mkState ∅ [] (App.new_session 3) [] [] in
  let st' := (AppUI.update_checklist unit None net
                (VisoLearnClient.Returns (Some (lit "<div>no items</div>"))) true conn st).2 in
  let no_token :=
    AppUI.update_checklist unit None net (VisoLearnClient.Returns None) true
      (AppUI.initial_connection unit []) st in
  view (App.heap st') (App.checklist st') = AppUI.placeholder_items
  /\ (AppUI.update_checklist unit None net
        (VisoLearnClient.Raises (Gateway.mkExn Gateway.RuntimeError (lit "boom")))
        true conn st).2 = st
  /\ (no_token.2 = st /\ AppUI.is_connected no_token.1 = false
      /\ is_Some (AppUI.connection_error no_token.1)).
Proof.
  intros net conn st st' no_token.
  pose proof (update_checklist_outcomes unit None net
                (VisoLearnClient.Returns (Some (lit "<div>no items</div>"))) true conn st)
    as (_ & _ & _ & _ & _ & _ & Hok).
  pose proof (update_checklist_outcomes unit None net
                (VisoLearnClient.Raises (Gateway.mkExn Gateway.RuntimeError (lit "boom")))
                true conn st) as (_ & _ & _ & _ & _ & Hraise & _).
  pose proof (update_checklist_outcomes unit None net (VisoLearnClient.Returns None) true
                (AppUI.initial_connection unit []) st) as (_ & _ & Hfail & _).
  split; [|split].
  - destruct (Hok (Some (lit "<div>no items</div>")) eq_refl eq_refl eq_refl eq_refl)
      as (_ & [Hdec | [_ Hph]] & _); [|exact Hph].
    exfalso. vm_compute in Hdec. discriminate Hdec.
  - exact (Hraise _ eq_refl).
  - destruct (Hfail eq_refl eq_refl) as (Hst & Hoff & Herr & _).
    split; [exact Hst | split; [exact Hoff | exact Herr]].
Defined.

(** X20 on the topic 'my pets' with a limit of three attempts. *)
Lemma generate_image_starts_clean_witness :
  let result :=
    AppUI.generate_image unit (fun _ => Some ()) (fun n => n) (lit "my pets")
      (Z.of_nat 3) None
      (App.mkState ∅ [] (App.new_session 1) [(App.Child, lit "old")] []) in
  let st' := result.1.1 in
  result.2 = Some true
  /\ App.conversation_history st' = []
  /\ App.attempts_warning (App.active_session st') (view (App.heap st') (App.checklist st'))
     = None.
Proof.
  pose proof (generate_image_starts_clean unit (fun _ => Some ()) (fun n => n)
                (lit "my pets") 3 None
                (App.mkState ∅ [] (App.new_session 1) [(App.Child, lit "old")] [])) as H.
  unfold AppUI.generate_image in *. cbv beta iota zeta in H. cbv beta iota zeta.
  cbn [fst snd].
  destruct H as (Hret & _ & Hhist & _ & _ & _ & _ & _ & _ & Hwarn).
  split; [exact Hret | split; [exact Hhist | apply Hwarn; lia]].
Defined.
